(** * Signaling relay, dispatch gate, metrics and connection recovery of the
    WebRTC VLM detection demo, embedded in Rocq.

    Sources: [server/index.js] (the signaling relay, in the version whose
    [handleStartStream] defers the pairing check by 100 ms and handles the
    ['join'] message), [src/components/WebRTCStream.tsx] (browser side),
    [src/pages/PhoneStream.tsx] (phone side), [src/lib/metricsCollector.ts]
    and [server/objectDetectionServer.js]. *)

From Stdlib Require Import String List ZArith QArith Qround Qminmax Bool Lia Lqa.
From Stdlib Require Import Sorted Permutation.
Import ListNotations.

Open Scope nat_scope.
Open Scope string_scope.
Open Scope list_scope.

(* ------------------------------------------------------------------ *)
(** ** The signaling relay *)

Module Relay.

(** A [ws] object of the relay: the attributes the handlers read and write.
    [role] and [roomId] are [undefined] ([None]) until the client joins;
    [readyState] is 1 (OPEN) while the socket is alive and 3 (CLOSED) after. *)
Record Client := mkClient {
  role : option string;
  roomId : option string;
  readyState : nat
}.

Definition OPEN : nat := 1.
Definition CLOSED : nat := 3.

Definition fresh_client : Client := mkClient None None OPEN.

(** The sockets are shared objects: the room arrays hold references
    (socket ids) and the attributes live in one store. *)
Definition Store := nat -> Client.

Definition upd (s : Store) (c : nat) (v : Client) : Store :=
  fun x => if Nat.eqb x c then v else s x.

(** JavaScript strict equality on [string | undefined]. *)
Definition opt_eqb (a b : option string) : bool :=
  match a, b with
  | Some x, Some y => String.eqb x y
  | None, None => true
  | _, _ => false
  end.

(** ** The [Map] of rooms: an association list in insertion order. *)
Definition Rooms := list (string * list nat).

Fixpoint map_get (k : string) (m : Rooms) : option (list nat) :=
  match m with
  | [] => None
  | (k', v) :: m' => if String.eqb k k' then Some v else map_get k m'
  end.

Definition map_has (k : string) (m : Rooms) : bool :=
  match map_get k m with Some _ => true | None => false end.

(** [Map.prototype.set]: overwrite in place, or append a new entry. *)
Fixpoint map_set (k : string) (v : list nat) (m : Rooms) : Rooms :=
  match m with
  | [] => [(k, v)]
  | (k', v') :: m' =>
      if String.eqb k k' then (k', v) :: m' else (k', v') :: map_set k v m'
  end.

Fixpoint map_delete (k : string) (m : Rooms) : Rooms :=
  match m with
  | [] => []
  | (k', v') :: m' => if String.eqb k k' then m' else (k', v') :: map_delete k m'
  end.

(** [roomConnections.get(id) || []], with [id] possibly [undefined]. *)
Definition get_or_empty (k : option string) (m : Rooms) : list nat :=
  match k with
  | Some k => match map_get k m with Some v => v | None => [] end
  | None => []
  end.

(** [Array.prototype.findIndex]. *)
Fixpoint findIndex (f : nat -> bool) (l : list nat) : option nat :=
  match l with
  | [] => None
  | x :: l' =>
      if f x then Some 0 else option_map S (findIndex f l')
  end.

(** [arr.splice(i, 1)] for an index inside the array. *)
Fixpoint splice1 (i : nat) (l : list nat) : list nat :=
  match i, l with
  | _, [] => []
  | 0, _ :: l' => l'
  | S i', x :: l' => x :: splice1 i' l'
  end.

(** The relay's world: the socket store, [roomConnections], the number of
    pending 100 ms pairing checks ([setTimeout] callbacks; they all close
    over the same constant [roomId], so they are interchangeable), and the
    messages sent so far, as (target socket, message type). *)
Record World := mkWorld {
  clients : Store;
  roomConnections : Rooms;
  timers : nat;
  outbox : list (nat * string)
}.

Definition init : World := mkWorld (fun _ => fresh_client) [] 0 [].

Definition send (w : World) (target : nat) (ty : string) : World :=
  mkWorld (clients w) (roomConnections w) (timers w) (outbox w ++ [(target, ty)]).

Definition main_room : string := "main-room".

(** [handleStartStream(ws, data)], with [data.role = r]. *)
Definition handleStartStream (w : World) (ws : nat) (r : option string) : World :=
  let rid := main_room in
  let rooms1 :=
    if map_has rid (roomConnections w) then roomConnections w
    else map_set rid [] (roomConnections w) in
  let connections := get_or_empty (Some rid) rooms1 in
  let connections1 :=
    match findIndex (fun c => opt_eqb (role (clients w c)) r) connections with
    | Some i => splice1 i connections
    | None => connections
    end in
  let connections2 := connections1 ++ [ws] in
  let old := clients w ws in
  mkWorld (upd (clients w) ws (mkClient r (Some rid) (readyState old)))
          (map_set rid connections2 rooms1)
          (S (timers w))
          (outbox w).

(** The socket [c] has role [r] and is OPEN. *)
Definition open_with_role (w : World) (r : string) (c : nat) : bool :=
  opt_eqb (role (clients w c)) (Some r) && Nat.eqb (readyState (clients w c)) OPEN.

(** The body of the [setTimeout] callback scheduled by [handleStartStream]. *)
Definition pairingCheck (w : World) : World :=
  let current := get_or_empty (Some main_room) (roomConnections w) in
  match find (open_with_role w "phone") current,
        find (open_with_role w "browser") current with
  | Some phone, Some browser =>
      if negb (Nat.eqb phone browser) then send w browser "create-offer" else w
  | _, _ => w
  end.

Definition handleOffer (w : World) (ws : nat) : World :=
  let connections := get_or_empty (roomId (clients w ws)) (roomConnections w) in
  match find (fun c => opt_eqb (role (clients w c)) (Some "phone")) connections with
  | Some p => send w p "offer"
  | None => w
  end.

Definition handleAnswer (w : World) (ws : nat) : World :=
  let connections := get_or_empty (roomId (clients w ws)) (roomConnections w) in
  match find (fun c => opt_eqb (role (clients w c)) (Some "browser")) connections with
  | Some b => send w b "answer"
  | None => w
  end.

Definition handleIceCandidate (w : World) (ws : nat) : World :=
  let connections := get_or_empty (roomId (clients w ws)) (roomConnections w) in
  match find (fun c => negb (Nat.eqb c ws) && Nat.eqb (readyState (clients w c)) OPEN)
             connections with
  | Some o => send w o "ice-candidate"
  | None => w
  end.

(** The loop of [ws.on('close')]: remove the first occurrence of [ws] from
    every room holding it, deleting a room left empty. *)
Fixpoint closeCleanup (ws : nat) (m : Rooms) : Rooms :=
  match m with
  | [] => []
  | (k, conns) :: m' =>
      match findIndex (Nat.eqb ws) conns with
      | Some i =>
          let conns' := splice1 i conns in
          match conns' with
          | [] => closeCleanup ws m'
          | _ => (k, conns') :: closeCleanup ws m'
          end
      | None => (k, conns) :: closeCleanup ws m'
      end
  end.

Definition onClose (w : World) (ws : nat) : World :=
  let old := clients w ws in
  mkWorld (upd (clients w) ws (mkClient (role old) (roomId old) CLOSED))
          (closeCleanup ws (roomConnections w))
          (timers w) (outbox w).

(** Inputs of the relay: a message from a socket (its [type], and [role]
    for a join), a pending pairing check firing, or a socket closing. *)
Inductive Event :=
  | EJoin (ws : nat) (r : option string)        (* 'join' or 'start-stream' *)
  | EOffer (ws : nat)
  | EAnswer (ws : nat)
  | EIce (ws : nat)
  | EUnknown (ws : nat)
  | EFire
  | EClose (ws : nat).

Definition is_open (w : World) (ws : nat) : bool :=
  Nat.eqb (readyState (clients w ws)) OPEN.

(** One step; a closed socket sends nothing and closes only once, and a
    check fires only when one is pending. *)
Definition step (w : World) (e : Event) : World :=
  match e with
  | EJoin ws r => if is_open w ws then handleStartStream w ws r else w
  | EOffer ws => if is_open w ws then handleOffer w ws else w
  | EAnswer ws => if is_open w ws then handleAnswer w ws else w
  | EIce ws => if is_open w ws then handleIceCandidate w ws else w
  | EUnknown _ => w
  | EFire =>
      match timers w with
      | 0 => w
      | S n => pairingCheck (mkWorld (clients w) (roomConnections w) n (outbox w))
      end
  | EClose ws => if is_open w ws then onClose w ws else w
  end.

Definition run (w : World) (es : list Event) : World := fold_left step es w.

End Relay.

(* ------------------------------------------------------------------ *)
(** ** The frame dispatch gate of [startProcessing] (WebRTCStream.tsx) *)

Module Gate.

(** [DETECTION_INTERVAL = 125] ms. *)
Definition DETECTION_INTERVAL : Z := 125.

(** The two closure variables of [startProcessing]. *)
Record GateState := mkGate {
  isProcessing : bool;
  lastDetectionTime : Z
}.

Definition gate_init : GateState := mkGate false 0.

Inductive Decision := Admit | Drop.

(** The head of [processFrame] at time [now = Date.now()]: the test
    [shouldRunDetection] and, when it holds, the two assignments made before
    the first [await]. *)
Definition tryDispatch (now : Z) (g : GateState) : Decision * GateState :=
  let shouldRunDetection :=
    Z.leb DETECTION_INTERVAL (now - lastDetectionTime g) && negb (isProcessing g) in
  if shouldRunDetection then (Admit, mkGate true now) else (Drop, g).

(** The [finally] clause after the analysis round trip. *)
Definition release (g : GateState) : GateState := mkGate false (lastDetectionTime g).

(** A run of [processFrame] iterations with no [release] in between. *)
Fixpoint dispatchAll (nows : list Z) (g : GateState) : list Decision * GateState :=
  match nows with
  | [] => ([], g)
  | now :: rest =>
      let (d, g1) := tryDispatch now g in
      let (ds, g2) := dispatchAll rest g1 in
      (d :: ds, g2)
  end.

Definition is_admit (d : Decision) : bool :=
  match d with Admit => true | Drop => false end.

End Gate.

(* ------------------------------------------------------------------ *)
(** ** The metrics collector ([src/lib/metricsCollector.ts]) *)

Module Metrics.

Open Scope Z_scope.

Record DetectionResult := mkResult {
  dr_frame_id : string;
  dr_capture_ts : Z;
  dr_recv_ts : Z;
  dr_inference_ts : Z
}.

Record FrameMetrics := mkFrameMetrics {
  frame_id : string;
  capture_ts : Z;
  recv_ts : Z;
  inference_ts : Z;
  display_ts : Z;
  e2e_latency : Z;
  server_latency : Z;
  network_latency : Z
}.

Record MetricsCollector := mkCollector {
  frameMetrics : list FrameMetrics;
  startTime : Z;
  processedFrames : nat;
  bandwidthStats : Q * Q
}.

(** [new MetricsCollector()] at time [now]. *)
Definition create (now : Z) : MetricsCollector := mkCollector [] now 0%nat (0%Q, 0%Q).

(** The record built by [recordFrame] when [Date.now()] is [displayTs]. *)
Definition frameOf (displayTs : Z) (r : DetectionResult) : FrameMetrics :=
  mkFrameMetrics (dr_frame_id r) (dr_capture_ts r) (dr_recv_ts r) (dr_inference_ts r)
    displayTs (displayTs - dr_capture_ts r)
    (dr_inference_ts r - dr_recv_ts r) (dr_recv_ts r - dr_capture_ts r).

(** [recordFrame]: push, count, then [shift] once the array exceeds 100. *)
Definition recordFrame (displayTs : Z) (r : DetectionResult) (c : MetricsCollector)
  : MetricsCollector :=
  let pushed := frameMetrics c ++ [frameOf displayTs r] in
  let kept := if Nat.ltb 100 (length pushed) then tl pushed else pushed in
  mkCollector kept (startTime c) (S (processedFrames c)) (bandwidthStats c).

(** Successive [recordFrame] calls, each with its [Date.now()]. *)
Definition recordAll (samples : list (Z * DetectionResult)) (c : MetricsCollector)
  : MetricsCollector :=
  fold_left (fun c s => recordFrame (fst s) (snd s) c) samples c.

(** An array read [a[i]]: [undefined] ([None]) outside the array. *)
Definition at_index (a : list Q) (i : Z) : option Q :=
  if i <? 0 then None else nth_error a (Z.to_nat i).

(** [x % 1] in JavaScript: the remainder takes the sign of [x]. *)
Definition js_mod1 (x : Q) : Q :=
  (x - inject_Z (if Qle_bool 0 x then Qfloor x else Qceiling x))%Q.

(** [calculatePercentile(sortedArray, percentile)], over exact rationals;
    [None] stands for the [NaN] an [undefined] operand produces. *)
Definition calculatePercentile (sortedArray : list Q) (percentile : Q) : option Q :=
  match sortedArray with
  | [] => Some 0%Q
  | _ =>
      let len := Z.of_nat (length sortedArray) in
      let index := (percentile / 100 * inject_Z (len - 1))%Q in
      let lower := Qfloor index in
      let upper := Qceiling index in
      let weight := js_mod1 index in
      if upper >=? len then Some (last sortedArray 0%Q)
      else
        match at_index sortedArray lower, at_index sortedArray upper with
        | Some lo, Some hi => Some (lo * (1 - weight) + hi * weight)%Q
        | _, _ => None
        end
  end.

(** The percentile of the specification, in its own words: linear
    interpolation between the elements at [floor idx] and [ceil idx],
    weighted by [idx mod 1], with [idx = p/100 * (n-1)]; 0 when [n = 0]. *)
Definition percentile_spec (p : Q) (sorted : list Q) : Q :=
  match sorted with
  | [] => 0%Q
  | _ =>
      let n := Z.of_nat (length sorted) in
      let idx := (p / 100 * inject_Z (n - 1))%Q in
      let frac := (idx - inject_Z (Qfloor idx))%Q in
      (nth (Z.to_nat (Qfloor idx)) sorted 0 * (1 - frac)
       + nth (Z.to_nat (Qceiling idx)) sorted 0 * frac)%Q
  end.

Close Scope Z_scope.

End Metrics.

(* ------------------------------------------------------------------ *)
(** ** The older relay ([src/server/index.js]) *)

Module RelayV1.
Import Relay.

(** [handleStartStream(ws, data)] of the older relay: the socket is pushed
    without looking for a previous holder of its role, and the negotiation
    is started at once, by the registering socket itself when it is the
    browser. *)
Definition handleStartStream1 (w : World) (ws : nat) (r : option string) : World :=
  let rid := main_room in
  let rooms1 :=
    if map_has rid (roomConnections w) then roomConnections w
    else map_set rid [] (roomConnections w) in
  let connections := get_or_empty (Some rid) rooms1 ++ [ws] in
  let cs := upd (clients w) ws (mkClient r (Some rid) (readyState (clients w ws))) in
  let w1 := mkWorld cs (map_set rid connections rooms1) (timers w) (outbox w) in
  match find (fun c => opt_eqb (role (cs c)) (Some "phone")) connections,
        find (fun c => opt_eqb (role (cs c)) (Some "browser")) connections with
  | Some phone, Some browser =>
      if negb (Nat.eqb phone browser) && opt_eqb r (Some "browser")
      then send w1 ws "create-offer" else w1
  | _, _ => w1
  end.

(** [handleIceCandidate] of the older relay: the first other socket of the
    room, whatever its [readyState]. *)
Definition handleIceCandidate1 (w : World) (ws : nat) : World :=
  let connections := get_or_empty (roomId (clients w ws)) (roomConnections w) in
  match find (fun c => negb (Nat.eqb c ws)) connections with
  | Some o => send w o "ice-candidate"
  | None => w
  end.

(** Inputs of the older relay; a ['join'] message falls into the [default]
    branch of its [switch]. [handleOffer] and [handleAnswer] are the same
    code as in the newer relay, and so is the close handler. *)
Inductive Event1 :=
  | SStart (ws : nat) (r : option string)
  | SJoin (ws : nat) (r : option string)
  | SOffer (ws : nat)
  | SAnswer (ws : nat)
  | SIce (ws : nat)
  | SClose (ws : nat).

Definition step1 (w : World) (e : Event1) : World :=
  match e with
  | SStart ws r => if is_open w ws then handleStartStream1 w ws r else w
  | SJoin _ _ => w
  | SOffer ws => if is_open w ws then handleOffer w ws else w
  | SAnswer ws => if is_open w ws then handleAnswer w ws else w
  | SIce ws => if is_open w ws then handleIceCandidate1 w ws else w
  | SClose ws => if is_open w ws then onClose w ws else w
  end.

Definition run1 (w : World) (es : list Event1) : World := fold_left step1 es w.

End RelayV1.

(* ------------------------------------------------------------------ *)
(** ** [getMetrics], [setBandwidthStats], [reset] and [exportMetrics]
    ([src/lib/metricsCollector.ts]) *)

Module MetricsOps.
Import Metrics.

Open Scope Z_scope.

(** [[...latencies].sort((a, b) => a - b)]: the comparator orders the
    numbers ascending, and the ascending arrangement of a list of integers
    is unique; it is computed here by insertion. *)
Fixpoint insert_z (x : Z) (l : list Z) : list Z :=
  match l with
  | [] => [x]
  | y :: l' => if x <=? y then x :: l else y :: insert_z x l'
  end.

Fixpoint sort_z (l : list Z) : list Z :=
  match l with
  | [] => []
  | x :: l' => insert_z x (sort_z l')
  end.

(** The numbers [fps] can take: [processedFrames / elapsedSeconds] is a
    finite number, or [Infinity] for [n / 0] with [n > 0]; [0 / 0] is [NaN],
    which [fps || 0] turns into 0. *)
Inductive Num := Fin (q : Q) | PosInfinity.

Definition fps_or_zero (processed : nat) (elapsedSeconds : Q) : Num :=
  if Qeq_bool elapsedSeconds 0 then
    match processed with O => Fin 0 | S _ => PosInfinity end
  else Fin (inject_Z (Z.of_nat processed) / elapsedSeconds)%Q.

Record Snapshot := mkSnapshot {
  median : option Q;
  p95 : option Q;
  fps : Num;
  bandwidth : Q * Q;
  totalFrames : nat;
  elapsedTime : Q
}.

(** [getMetrics()] when [Date.now()] is [now]. *)
Definition getMetrics (now : Z) (c : MetricsCollector) : Snapshot :=
  let elapsedSeconds := (inject_Z (now - startTime c) / 1000)%Q in
  let latencies := map e2e_latency (frameMetrics c) in
  let sortedLatencies := map inject_Z (sort_z latencies) in
  mkSnapshot (calculatePercentile sortedLatencies 50)
             (calculatePercentile sortedLatencies 95)
             (fps_or_zero (processedFrames c) elapsedSeconds)
             (bandwidthStats c) (processedFrames c) elapsedSeconds.

Definition setBandwidthStats (uplink downlink : Q) (c : MetricsCollector)
  : MetricsCollector :=
  mkCollector (frameMetrics c) (startTime c) (processedFrames c) (uplink, downlink).

(** [reset()] when [Date.now()] is [now]. *)
Definition reset (now : Z) (c : MetricsCollector) : MetricsCollector :=
  mkCollector [] now 0%nat (0%Q, 0%Q).

(** [arr.slice(-n)] for [n > 0]: from index [max(length - n, 0)] on. *)
Definition slice_last {A} (n : nat) (l : list A) : list A := skipn (length l - n) l.

(** The object [exportMetrics()] returns, without its [timestamp] string. *)
Record MetricsExport := mkExport {
  duration_seconds : Q;
  total_frames : nat;
  processed_fps : Num;
  median_ms : option Q;
  p95_ms : option Q;
  uplink_kbps : Q;
  downlink_kbps : Q;
  frame_details : list FrameMetrics
}.

Definition exportMetrics (now : Z) (c : MetricsCollector) : MetricsExport :=
  let m := getMetrics now c in
  mkExport (elapsedTime m) (totalFrames m) (fps m) (median m) (p95 m)
           (fst (bandwidth m)) (snd (bandwidth m)) (slice_last 10 (frameMetrics c)).

Close Scope Z_scope.

End MetricsOps.

(* ------------------------------------------------------------------ *)
(** ** The processing loop of [startProcessing] (WebRTCStream.tsx) *)

Module Loop.
Import Gate Metrics.

(** The gate's closure variables, the metrics collector, and the times at
    which frames were admitted. *)
Record LoopState := mkLoop {
  gate : GateState;
  collector : MetricsCollector;
  admitted : list Z
}.

(** A [requestAnimationFrame] tick running [processFrame] at [Date.now()]
    [now], or the end of the awaited detection of the frame in flight:
    [Some r] when it resolved to a result, [None] when it resolved to [null]
    (the failed [fetch] of [sendFrameToServer]) or threw; [displayTs] is the
    [Date.now()] read by [recordFrame]. *)
Inductive LEvent :=
  | Tick (now : Z)
  | Complete (displayTs : Z) (result : option DetectionResult).

Definition loop_step (s : LoopState) (e : LEvent) : LoopState :=
  match e with
  | Tick now =>
      match tryDispatch now (gate s) with
      | (Admit, g) => mkLoop g (collector s) (admitted s ++ [now])
      | (Drop, g) => mkLoop g (collector s) (admitted s)
      end
  | Complete displayTs result =>
      if isProcessing (gate s) then
        let c := match result with
                 | Some r => recordFrame displayTs r (collector s)
                 | None => collector s
                 end in
        mkLoop (release (gate s)) c (admitted s)
      else s
  end.

Definition loop_run (s : LoopState) (es : list LEvent) : LoopState :=
  fold_left loop_step es s.

End Loop.

(* ------------------------------------------------------------------ *)
(** ** The browser peer ([src/components/WebRTCStream.tsx]) *)

Module Browser.

(** The value passed to [onConnectionChange]. *)
Inductive Status := SDisconnected | SConnecting | SConnected.

(** The observable actions of the component. *)
Inductive Effect :=
  | StatusChange (s : Status)          (* onConnectionChange(s) *)
  | ScheduleReconnect (delay_ms : Z)   (* setTimeout in websocket.onerror *)
  | ReconnectAttempt (n : nat)         (* "Reconnection attempt n/5", then initializeWebRTC *)
  | FallbackReinit                     (* initializeWebRTC after restartIce threw *)
  | RestartIce                         (* peerConnection.restartIce() *)
  | AddIceCandidate (c : nat) (remote_set : bool)
                                       (* peerConnection.addIceCandidate(c), with
                                          whether a remote description was set *)
  | SendJoin.                          (* {type:'join', role:'browser'} *)

(** The refs of the component ([reconnectAttempts], [iceFailureCount]),
    whether the current peer connection has a remote description, the
    number of pending reconnect timers (their callbacks read only the refs,
    so they are interchangeable), the last reported status and the effects
    so far. *)
Record BState := mkB {
  reconnectAttempts : nat;
  iceFailureCount : nat;
  remoteDescriptionSet : bool;
  pendingTimers : nat;
  reported : Status;
  effects : list Effect
}.

Definition emit (s : BState) (e : Effect) : BState :=
  mkB (reconnectAttempts s) (iceFailureCount s) (remoteDescriptionSet s)
      (pendingTimers s) (reported s) (effects s ++ [e]).

Definition set_reported (s : BState) (st : Status) : BState :=
  emit (mkB (reconnectAttempts s) (iceFailureCount s) (remoteDescriptionSet s)
            (pendingTimers s) st (effects s)) (StatusChange st).

(** [initializeWebRTC]: reports [connecting] and creates a fresh peer
    connection (no remote description yet) and a fresh signaling socket.
    The refs are left as they are. *)
Definition initializeWebRTC (s : BState) : BState :=
  let s1 := set_reported s SConnecting in
  mkB (reconnectAttempts s1) (iceFailureCount s1) false
      (pendingTimers s1) (reported s1) (effects s1).

(** The state the component starts from: [useEffect] ran [init]. *)
Definition mount : BState := initializeWebRTC (mkB 0 0 false 0 SDisconnected []).

(** [restartIce()]; [throws] tells whether [peerConnection.restartIce()]
    throws, in which case the whole connection is re-initialized. *)
Definition restartIce (throws : bool) (s : BState) : BState :=
  let s1 := emit s RestartIce in
  if throws then initializeWebRTC (emit s1 FallbackReinit) else s1.

(** [Math.pow(2, reconnectAttempts.current) * 1000]. *)
Definition backoff_ms (attempts : nat) : Z := (2 ^ Z.of_nat attempts * 1000)%Z.

Inductive Event :=
  | WsOpen
  | WsError
  | WsClose
  | ReconnectTimer
  | MsgAnswer
  | MsgIce (cand : option nat) (apply_ok : bool) (restart_throws : bool)
  | IceFailed (restart_throws : bool)
  | IceConnected.

Definition step (s : BState) (e : Event) : BState :=
  match e with
  | WsOpen =>
      emit (mkB 0 (iceFailureCount s) (remoteDescriptionSet s) (pendingTimers s)
                (reported s) (effects s)) SendJoin
  | WsError =>
      emit (mkB (reconnectAttempts s) (iceFailureCount s) (remoteDescriptionSet s)
                (S (pendingTimers s)) (reported s) (effects s))
           (ScheduleReconnect (backoff_ms (reconnectAttempts s)))
  | WsClose => set_reported s SDisconnected
  | ReconnectTimer =>
      match pendingTimers s with
      | 0 => s
      | S n =>
          if Nat.ltb (reconnectAttempts s) 5 then
            let k := S (reconnectAttempts s) in
            initializeWebRTC
              (emit (mkB k (iceFailureCount s) (remoteDescriptionSet s) n
                         (reported s) (effects s)) (ReconnectAttempt k))
          else
            mkB (reconnectAttempts s) (iceFailureCount s) (remoteDescriptionSet s) n
                (reported s) (effects s)
      end
  | MsgAnswer =>
      mkB (reconnectAttempts s) (iceFailureCount s) true (pendingTimers s)
          (reported s) (effects s)
  | MsgIce None _ _ => s
  | MsgIce (Some c) ok throws =>
      let s1 := emit s (AddIceCandidate c (remoteDescriptionSet s)) in
      if ok then s1
      else if Nat.ltb 3 (iceFailureCount s1) then restartIce throws s1 else s1
  | IceFailed throws =>
      restartIce throws
        (mkB (reconnectAttempts s) (S (iceFailureCount s)) (remoteDescriptionSet s)
             (pendingTimers s) (reported s) (effects s))
  | IceConnected =>
      mkB (reconnectAttempts s) 0 (remoteDescriptionSet s) (pendingTimers s)
          (reported s) (effects s)
  end.

Definition run (s : BState) (es : list Event) : BState := fold_left step es s.

End Browser.

(* ------------------------------------------------------------------ *)
(** ** The phone peer's candidate handling ([src/pages/PhoneStream.tsx]) *)

Module Phone.

Record PState := mkP {
  p_remoteDescriptionSet : bool;
  (** [addIceCandidate] calls: candidate, and whether a remote description
      was set at the call *)
  p_applied : list (nat * bool)
}.

Inductive Event :=
  | POffer          (* 'offer': setRemoteDescription, then the answer *)
  | PIce (cand : option nat).

Definition step (s : PState) (e : Event) : PState :=
  match e with
  | POffer => mkP true (p_applied s)
  | PIce None => s
  | PIce (Some c) =>
      mkP (p_remoteDescriptionSet s) (p_applied s ++ [(c, p_remoteDescriptionSet s)])
  end.

Definition run (s : PState) (es : list Event) : PState := fold_left step es s.

End Phone.

(* ------------------------------------------------------------------ *)
(** ** The detection endpoint ([server/objectDetectionServer.js]) *)

Module Detection.

Record Det := mkDet {
  label : string;
  score : Q;
  xmin : Q; ymin : Q; xmax : Q; ymax : Q
}.

(** A JSON value, as [express.json()] (or [multer], for the fields of a
    multipart body) hands it to a route; a missing field reads as
    [undefined]. Numbers from JSON are finite. *)
Inductive JsVal :=
  | JUndefined
  | JNull
  | JBool (b : bool)
  | JNum (q : Q)
  | JStr (s : string)
  | JArr (xs : list JsVal)
  | JObj (fields : list (string * JsVal)).

(** A JavaScript number, as [parseInt] returns it. *)
Inductive JsNumber :=
  | Finite (q : Q)
  | NaN
  | Infinity (negative : bool).

(** A computation that returns a value or throws. *)
Inductive Exc (A : Type) :=
  | Ok (a : A)
  | Throw.
Arguments Ok {A} a.
Arguments Throw {A}.

Definition bind {A B} (m : Exc A) (f : A -> Exc B) : Exc B :=
  match m with Ok a => f a | Throw => Throw end.

(** [try { m } catch { h }]. *)
Definition try_catch {A} (m : Exc A) (h : Exc A) : Exc A :=
  match m with Ok a => Ok a | Throw => h end.

Record Metadata := mkMeta {
  m_frame_id : JsVal;
  m_capture_ts : JsNumber;
  m_recv_ts : Z
}.

Record Response := mkResponse {
  frame_id : JsVal;
  capture_ts : JsNumber;
  recv_ts : Z;
  inference_ts : Z;
  detections : list Det
}.

(** The [try]/[catch] of [detectObjects] around its detection step;
    [inference_ts] is the [Date.now()] read before the [try]. *)
Definition catchDetection (metadata : Metadata) (its : Z) (step : Exc (list Det))
  : Exc Response :=
  try_catch
    (bind step (fun ds =>
       Ok (mkResponse (m_frame_id metadata) (m_capture_ts metadata)
                      (m_recv_ts metadata) its ds)))
    (Ok (mkResponse (m_frame_id metadata) (m_capture_ts metadata)
                    (m_recv_ts metadata) its [])).

(** [Math.random()], fed from a stream of values in [0, 1). *)
Definition random (rs : list Q) : Q * list Q :=
  match rs with
  | [] => (0%Q, [])
  | r :: rs' => (r, rs')
  end.

Definition mockObjects : list (string * Q) :=
  [("person", 2 # 10); ("phone", 3 # 10); ("cup", 25 # 100); ("book", 2 # 10);
   ("laptop", 15 # 100); ("bottle", 2 # 10); ("chair", 15 # 100)].

(** The base and span of [centerX], [centerY], [objWidth], [objHeight] for a
    label, from the [switch] of [generateEnhancedMockDetections]. *)
Definition box_params (l : string) : list (Q * Q) :=
  if String.eqb l "person" then
    [(3 # 10, 4 # 10); (2 # 10, 3 # 10); (15 # 100, 2 # 10); (3 # 10, 4 # 10)]
  else if String.eqb l "phone" then
    [(4 # 10, 2 # 10); (4 # 10, 2 # 10); (8 # 100, 1 # 10); (12 # 100, 15 # 100)]
  else
    [(2 # 10, 6 # 10); (2 # 10, 6 # 10); (1 # 10, 25 # 100); (1 # 10, 25 # 100)].

Definition draw (bs : Q * Q) (rs : list Q) : Q * list Q :=
  let (r, rs') := random rs in ((fst bs + r * snd bs)%Q, rs').

(** [generateEnhancedMockDetections]: one [Math.random()] per object, and for
    a kept object four for its box and one for its score. *)
Fixpoint generate (objs : list (string * Q)) (rs : list Q) : list Det * list Q :=
  match objs with
  | [] => ([], rs)
  | (l, prob) :: objs' =>
      let (r, rs1) := random rs in
      if negb (Qle_bool prob r) then
        let ps := box_params l in
        let (cx, rs2) := draw (nth 0 ps (0, 0)%Q) rs1 in
        let (cy, rs3) := draw (nth 1 ps (0, 0)%Q) rs2 in
        let (w, rs4) := draw (nth 2 ps (0, 0)%Q) rs3 in
        let (h, rs5) := draw (nth 3 ps (0, 0)%Q) rs4 in
        let (sc, rs6) := random rs5 in
        let d := mkDet l ((65 # 100) + sc * (35 # 100))%Q
                   (Qmax 0 (cx - w / 2)) (Qmax 0 (cy - h / 2))
                   (Qmin 1 (cx + w / 2)) (Qmin 1 (cy + h / 2)) in
        let (rest, rs7) := generate objs' rs6 in
        (d :: rest, rs7)
      else generate objs' rs1
  end.

Definition generateEnhancedMockDetections (rs : list Q) : list Det :=
  fst (generate mockObjects rs).

Definition generateMockDetections (rs : list Q) : list Det :=
  generateEnhancedMockDetections rs.

Definition is_lower (c : Ascii.ascii) : bool :=
  let n := Ascii.nat_of_ascii c in Nat.leb 97 n && Nat.leb n 122.

Fixpoint lower_run (s : string) : nat :=
  match s with
  | String c s' => if is_lower c then S (lower_run s') else 0
  | EmptyString => 0
  end.

(** [s.replace(/^data:image\/[a-z]+;base64,/, '')]. *)
Definition strip_data_prefix (s : string) : string :=
  let head := "data:image/" in
  if String.prefix head s then
    let r := substring (String.length head) (String.length s) s in
    let n := lower_run r in
    let r' := substring n (String.length r) r in
    if Nat.ltb 0 n && String.prefix ";base64," r' then substring 8 (String.length r') r'
    else s
  else s.

(** [imageData.replace(...)]: only a string has a callable [replace]; on
    [undefined] or [null] reading the property throws, and on any other JSON
    value it is [undefined] or a JSON value, so the call throws. *)
Definition replaceDataPrefix (imageData : JsVal) : Exc string :=
  match imageData with
  | JStr s => Ok (strip_data_prefix s)
  | _ => Throw
  end.

(** [processImageAndDetect(imageData)]: [sharp] is what
    [sharp(Buffer.from(base64Data, 'base64')).metadata()] does with the
    base64 text, either the [width] and [height] it reads or a throw; the
    generator ignores both. *)
Definition processImageAndDetect (imageData : JsVal)
  (sharp : string -> Exc (JsVal * JsVal)) (rs : list Q) : Exc (list Det) :=
  try_catch
    (bind (replaceDataPrefix imageData) (fun base64Data =>
     bind (sharp base64Data) (fun _ =>
     Ok (generateEnhancedMockDetections rs))))
    (Ok (generateMockDetections rs)).

Definition runPythonInference (rs : list Q) : Exc (list Det) :=
  Ok (generateMockDetections rs).

(** [detectObjects(imageData, metadata)] after initialization. *)
Definition detectObjects (modelLoaded : bool) (imageData : JsVal)
  (sharp : string -> Exc (JsVal * JsVal)) (rs : list Q) (metadata : Metadata) (its : Z)
  : Exc Response :=
  catchDetection metadata its
    (if modelLoaded then runPythonInference rs
     else processImageAndDetect imageData sharp rs).

End Detection.

(* ------------------------------------------------------------------ *)
(** ** [updateBandwidthStats] (WebRTCStream.tsx) *)

Module Bandwidth.
Import Metrics MetricsOps.

(** The fields of a [getStats()] report the function reads. *)
Record StatsReport := mkReport {
  rtype : string;
  mediaType : option string;
  bytesSent : option Q;
  bytesReceived : option Q
}.

(** [x || 0] on a byte counter that is a number or [undefined]. *)
Definition or0 (x : option Q) : Q := match x with Some v => v | None => 0%Q end.

(** The [stats.forEach] loop: the last matching report of each kind wins. *)
Fixpoint scanStats (reports : list StatsReport) (uplink downlink : Q) : Q * Q :=
  match reports with
  | [] => (uplink, downlink)
  | r :: rest =>
      let uplink' :=
        if String.eqb (rtype r) "outbound-rtp" && Relay.opt_eqb (mediaType r) (Some "video")
        then (or0 (bytesSent r) / 1024 * 8)%Q else uplink in
      let downlink' :=
        if String.eqb (rtype r) "inbound-rtp" && Relay.opt_eqb (mediaType r) (Some "video")
        then (or0 (bytesReceived r) / 1024 * 8)%Q else downlink in
      scanStats rest uplink' downlink'
  end.

(** The demo values [800 + Math.random() * 400] and
    [1200 + Math.random() * 800]. *)
Definition mockStats (rs : list Q) (c : MetricsCollector) : MetricsCollector :=
  let (r1, rs1) := Detection.random rs in
  let (r2, _) := Detection.random rs1 in
  setBandwidthStats (800 + r1 * 400)%Q (1200 + r2 * 800)%Q c.

(** [updateBandwidthStats()]: [hasPeer] is whether [peerConnectionRef]
    holds a connection, [stats] what [getStats()] resolves to ([None] when
    it rejects). *)
Definition updateBandwidthStats (hasPeer : bool) (stats : option (list StatsReport))
  (rs : list Q) (c : MetricsCollector) : MetricsCollector :=
  if negb hasPeer then c
  else
    match stats with
    | Some reports =>
        let (uplink, downlink) := scanStats reports 0 0 in
        if Qeq_bool uplink 0 && Qeq_bool downlink 0 then mockStats rs c
        else setBandwidthStats uplink downlink c
    | None => mockStats rs c
    end.

End Bandwidth.

(* ------------------------------------------------------------------ *)
(** ** The [/api/detect] route ([server/index.js]) *)

Module Api.
Import Detection.

(** [image], [capture_ts] and [frame_id] of [req.body]. *)
Record Body := mkBody {
  image : JsVal;
  body_capture_ts : JsVal;
  body_frame_id : JsVal
}.

Inductive HttpResponse :=
  | Status400
  | Status200 (body : Response)
  | Status500.

(** [!v]: the falsy JSON values are [undefined], [null], [false], [0] and
    the empty string. *)
Definition falsy (v : JsVal) : bool :=
  match v with
  | JUndefined | JNull => true
  | JBool b => negb b
  | JNum q => Qeq_bool q 0
  | JStr s => String.eqb s ""
  | JArr _ | JObj _ => false
  end.

Section Route.

(** The two builtins the route relies on: [Number.prototype.toString] on a
    finite number, and the digit scan [parseInt] runs on a string. *)
Variable numberToString : Q -> string.
Variable parseIntString : string -> JsNumber.

(** [ToString(v)] on a JSON value. An array is joined with [","], with
    [undefined] and [null] read as [""]. An object's own [toString] field is
    not callable, and neither its own [valueOf] field nor
    [Object.prototype.valueOf] yields a primitive, so converting an object
    that has a [toString] field throws a [TypeError]; any other object reads
    as ["[object Object]"]. *)
Fixpoint toString (v : JsVal) : Exc string :=
  match v with
  | JUndefined => Ok "undefined"
  | JNull => Ok "null"
  | JBool b => Ok (if b then "true" else "false")
  | JNum q => Ok (numberToString q)
  | JStr s => Ok s
  | JArr xs =>
      let fix elems (xs : list JsVal) : Exc (list string) :=
        match xs with
        | [] => Ok []
        | x :: xs' =>
            bind (match x with JUndefined | JNull => Ok "" | _ => toString x end)
                 (fun s => bind (elems xs') (fun ss => Ok (s :: ss)))
        end in
      bind (elems xs) (fun ss => Ok (String.concat "," ss))
  | JObj fs =>
      if existsb (fun kv => String.eqb (fst kv) "toString") fs then Throw
      else Ok "[object Object]"
  end.

Definition parseInt (v : JsVal) : Exc JsNumber :=
  bind (toString v) (fun s => Ok (parseIntString s)).

(** The handler of [POST /api/detect], with [recv_ts] and [inference_ts]
    the two [Date.now()] readings and [modelLoaded], [sharp] as for
    [detectObjects]; a throw inside its [try] answers 500. *)
Definition apiDetect (modelLoaded : bool) (sharp : string -> Exc (JsVal * JsVal))
  (rs : list Q) (body : Body) (recv_ts its : Z) : HttpResponse :=
  if falsy (image body) then Status400
  else
    match bind (parseInt (body_capture_ts body)) (fun n =>
            detectObjects modelLoaded (image body) sharp rs
              (mkMeta (body_frame_id body) n recv_ts) its) with
    | Ok r => Status200 r
    | Throw => Status500
    end.

End Route.

End Api.

(* ================================================================== *)
(** * Properties of the signaling relay *)

Module RelayFacts.
Import Relay.

(** Invariants of [run]: a property kept by every step holds after any run. *)
Lemma run_preserves (P : World -> Prop) :
  (forall w e, P w -> P (step w e)) -> forall es w, P w -> P (run w es).
Proof.
  intros Hstep es. induction es as [|e es IH]; intros w Hw; simpl; auto.
Qed.

Ltac split_matches :=
  repeat match goal with
         | |- context [match ?x with _ => _ end] => destruct x
         end.

Lemma pairingCheck_rooms w : roomConnections (pairingCheck w) = roomConnections w.
Proof. unfold pairingCheck. split_matches; reflexivity. Qed.

Lemma pairingCheck_clients w : clients (pairingCheck w) = clients w.
Proof. unfold pairingCheck. split_matches; reflexivity. Qed.

Lemma handleOffer_rooms w ws : roomConnections (handleOffer w ws) = roomConnections w.
Proof. unfold handleOffer. split_matches; reflexivity. Qed.

Lemma handleAnswer_rooms w ws : roomConnections (handleAnswer w ws) = roomConnections w.
Proof. unfold handleAnswer. split_matches; reflexivity. Qed.

Lemma handleIceCandidate_rooms w ws :
  roomConnections (handleIceCandidate w ws) = roomConnections w.
Proof. unfold handleIceCandidate. split_matches; reflexivity. Qed.

(** The shape of the registry: no room, or the single room [main-room]
    holding at least one socket. *)
Definition registry_shape (m : Rooms) : Prop :=
  m = [] \/ exists conns, conns <> [] /\ m = [(main_room, conns)].

Lemma handleStartStream_rooms w ws r :
  registry_shape (roomConnections w) ->
  exists conns, roomConnections (handleStartStream w ws r)
                = [(main_room, conns ++ [ws])].
Proof.
  intros [Hm | [conns [_ Hm]]]; unfold handleStartStream; rewrite Hm.
  - eexists. reflexivity.
  - simpl. eexists. reflexivity.
Qed.

Lemma closeCleanup_shape ws m :
  registry_shape m -> registry_shape (closeCleanup ws m).
Proof.
  intros [Hm | [conns [Hne Hm]]]; subst m; simpl.
  - left; reflexivity.
  - destruct (findIndex (Nat.eqb ws) conns) as [i|].
    + destruct (splice1 i conns) as [|x l] eqn:E.
      * left; reflexivity.
      * right. exists (x :: l). split; [discriminate | reflexivity].
    + right. exists conns. auto.
Qed.

Lemma step_shape w e :
  registry_shape (roomConnections w) -> registry_shape (roomConnections (step w e)).
Proof.
  intros H. destruct e as [ws r|ws|ws|ws|ws| |ws]; simpl.
  - destruct (is_open w ws); auto.
    destruct (handleStartStream_rooms w ws r H) as [conns ->].
    right. exists (conns ++ [ws]). split; [|reflexivity].
    intros Habs. destruct conns; discriminate.
  - destruct (is_open w ws); [rewrite handleOffer_rooms|]; auto.
  - destruct (is_open w ws); [rewrite handleAnswer_rooms|]; auto.
  - destruct (is_open w ws); [rewrite handleIceCandidate_rooms|]; auto.
  - auto.
  - destruct (timers w); [auto|]. rewrite pairingCheck_rooms. auto.
  - destruct (is_open w ws); auto. apply closeCleanup_shape. auto.
Qed.

Lemma reachable_shape es : registry_shape (roomConnections (run init es)).
Proof.
  apply (run_preserves (fun w => registry_shape (roomConnections w))).
  - intros w e. apply step_shape.
  - left; reflexivity.
Qed.

(** The messages a step sends are appended to the outbox. *)
Definition sends (w w' : World) (new : list (nat * string)) : Prop :=
  outbox w' = outbox w ++ new.

Lemma sends_nothing w w' : outbox w' = outbox w -> sends w w' [].
Proof. unfold sends. rewrite app_nil_r. auto. Qed.

Lemma open_with_role_timers w n r c :
  open_with_role (mkWorld (clients w) (roomConnections w) n (outbox w)) r c
  = open_with_role w r c.
Proof. reflexivity. Qed.

Ltac no_create_offer :=
  intros ? Hin; simpl in Hin;
  repeat match goal with
         | H : _ \/ _ |- _ => destruct H
         | H : (_, _) = (_, _) |- _ => injection H; intros; discriminate
         | H : False |- _ => contradiction
         end.

(** Every [create-offer] a step sends goes to a socket that is open and
    registered as [browser] when it is sent. *)
Lemma step_create_offer_to_browser w e :
  exists new, sends w (step w e) new /\
    forall c, In (c, "create-offer") new -> open_with_role w "browser" c = true.
Proof.
  destruct e as [ws r|ws|ws|ws|ws| |ws]; simpl.
  - destruct (is_open w ws); exists []; split; try no_create_offer;
      unfold sends; simpl; rewrite app_nil_r; reflexivity.
  - destruct (is_open w ws); [|exists []; split; [apply sends_nothing; reflexivity|no_create_offer]].
    unfold handleOffer. destruct (find _ _) as [p|].
    + exists [(p, "offer")]. split; [reflexivity|no_create_offer].
    + exists []; split; [apply sends_nothing; reflexivity|no_create_offer].
  - destruct (is_open w ws); [|exists []; split; [apply sends_nothing; reflexivity|no_create_offer]].
    unfold handleAnswer. destruct (find _ _) as [p|].
    + exists [(p, "answer")]. split; [reflexivity|no_create_offer].
    + exists []; split; [apply sends_nothing; reflexivity|no_create_offer].
  - destruct (is_open w ws); [|exists []; split; [apply sends_nothing; reflexivity|no_create_offer]].
    unfold handleIceCandidate. destruct (find _ _) as [p|].
    + exists [(p, "ice-candidate")]. split; [reflexivity|no_create_offer].
    + exists []; split; [apply sends_nothing; reflexivity|no_create_offer].
  - exists []; split; [apply sends_nothing; reflexivity|no_create_offer].
  - destruct (timers w) as [|n]; [exists []; split; [apply sends_nothing; reflexivity|no_create_offer]|].
    unfold pairingCheck; simpl.
    destruct (find _ _) as [ph|] eqn:Hph;
      [|exists []; split; [apply sends_nothing; reflexivity|no_create_offer]].
    destruct (find (open_with_role _ "browser") _) as [br|] eqn:Hbr;
      [|exists []; split; [apply sends_nothing; reflexivity|no_create_offer]].
    destruct (negb (Nat.eqb ph br));
      [|exists []; split; [apply sends_nothing; reflexivity|no_create_offer]].
    exists [(br, "create-offer")]. split; [reflexivity|].
    intros c [Hc|[]]. injection Hc as ->.
    apply find_some in Hbr. destruct Hbr as [_ Hbr].
    rewrite open_with_role_timers in Hbr. exact Hbr.
  - destruct (is_open w ws); [|exists []; split; [apply sends_nothing; reflexivity|no_create_offer]].
    exists []. split; [|no_create_offer].
    unfold sends; simpl; rewrite app_nil_r; reflexivity.
Qed.

Ltac eval_relay H1 H2 :=
  cbv -[Nat.eqb];
  repeat progress (rewrite ?Nat.eqb_refl, ?H1, ?H2; cbv -[Nat.eqb]).

(** C10: every registration, whatever socket and message trigger it, goes
    into the one fixed room [main-room]; in every reachable state the
    registry holds at most one room, and it is [main-room]. *)
Theorem registry_single_main_room (es : list Event) :
  let w := run init es in
  (forall k conns, In (k, conns) (roomConnections w) -> k = main_room) /\
  length (roomConnections w) <= 1 /\
  (forall ws r, is_open w ws = true ->
     roomId (clients (step w (EJoin ws r)) ws) = Some main_room /\
     In ws (get_or_empty (Some main_room) (roomConnections (step w (EJoin ws r))))).
Proof.
  intros w. pose proof (reachable_shape es) as Hs. fold w in Hs.
  split; [|split].
  - intros k conns Hin.
    destruct Hs as [Hm | [c [_ Hm]]]; rewrite Hm in Hin; simpl in Hin.
    + contradiction.
    + destruct Hin as [Heq|[]]. injection Heq as -> _. reflexivity.
  - destruct Hs as [Hm | [c [_ Hm]]]; rewrite Hm; simpl; lia.
  - intros ws r Hopen. simpl. rewrite Hopen. split.
    + unfold handleStartStream, upd. simpl. rewrite Nat.eqb_refl. reflexivity.
    + destruct (handleStartStream_rooms w ws r Hs) as [c ->].
      simpl. apply in_or_app. right. left. reflexivity.
Qed.

(** C8 (the failing run): a socket that joins as [phone] and then as
    [browser] stays twice in the room, so a later [browser] join evicts only
    the first copy and the room ends with two distinct sockets, 1 and 2,
    both registered as [browser]. *)
Theorem registry_two_handles_same_role :
  let w := run init [EJoin 1 (Some "phone"); EJoin 1 (Some "browser");
                     EJoin 2 (Some "browser")] in
  get_or_empty (Some main_room) (roomConnections w) = [1; 2] /\
  role (clients w 1) = Some "browser" /\ role (clients w 2) = Some "browser".
Proof. split; [|split]; reflexivity. Qed.

(** C1 (counterexample): a phone and a browser register one after the other
    and both pairing checks run afterwards: the browser receives two
    [create-offer] instructions, not one. *)
Lemma negotiate_now_sent_twice :
  outbox (run init [EJoin 1 (Some "phone"); EJoin 2 (Some "browser"); EFire; EFire])
  = [(2, "create-offer"); (2, "create-offer")].
Proof. reflexivity. Qed.

(** C1 (as the relay does it): every [create-offer] goes to a socket that
    is open and registered as [browser]; each registration schedules its
    own pairing check, and every check that finds an open phone and an open
    browser sends one [create-offer], so a phone and a browser registering
    in either order make the browser receive two of them when both checks
    run after both registrations, and one when the first check runs before
    the second registration. *)
Theorem negotiate_now_per_pairing_check :
  (forall w e, exists new, sends w (step w e) new /\
     forall c, In (c, "create-offer") new -> open_with_role w "browser" c = true) /\
  (forall p b, p <> b -> forall (browser_first early : bool),
     let j1 := if browser_first then EJoin b (Some "browser") else EJoin p (Some "phone") in
     let j2 := if browser_first then EJoin p (Some "phone") else EJoin b (Some "browser") in
     outbox (run init (if early then [j1; EFire; j2; EFire] else [j1; j2; EFire; EFire]))
     = repeat (b, "create-offer") (if early then 1 else 2)).
Proof.
  split; [exact step_create_offer_to_browser|].
  intros p b Hpb bf early j1 j2.
  assert (H1 : Nat.eqb p b = false) by (apply Nat.eqb_neq; auto).
  assert (H2 : Nat.eqb b p = false) by (apply Nat.eqb_neq; auto).
  subst j1 j2. destruct bf, early; eval_relay H1 H2; reflexivity.
Qed.

Lemma negotiate_now_per_pairing_check_witness :
  1 <> 2 /\
  outbox (run init [EJoin 1 (Some "phone"); EFire; EJoin 2 (Some "browser"); EFire])
  = [(2, "create-offer")].
Proof.
  split; [lia|].
  exact (proj2 negotiate_now_per_pairing_check 1 2 ltac:(lia) false true).
Defined.

End RelayFacts.

(* ================================================================== *)
(** * Properties of the frame dispatch gate *)

Module GateFacts.
Import Gate.

Lemma tryDispatch_in_flight now g :
  isProcessing g = true -> tryDispatch now g = (Drop, g).
Proof.
  intros H. unfold tryDispatch. rewrite H, andb_false_r. reflexivity.
Qed.

Lemma dispatchAll_in_flight nows g :
  isProcessing g = true -> dispatchAll nows g = (repeat Drop (length nows), g).
Proof.
  revert g. induction nows as [|now rest IH]; intros g H; simpl; [reflexivity|].
  rewrite (tryDispatch_in_flight now g H), (IH g H). reflexivity.
Qed.

Lemma tryDispatch_cases now g :
  (fst (tryDispatch now g) = Admit /\ snd (tryDispatch now g) = mkGate true now) \/
  (fst (tryDispatch now g) = Drop /\ snd (tryDispatch now g) = g).
Proof.
  unfold tryDispatch. destruct (_ && _); [left|right]; split; reflexivity.
Qed.

(** C2: [processFrame] admits a frame exactly when no analysis is in flight
    and at least [DETECTION_INTERVAL] = 125 ms have passed since the last
    admitted frame; admitting sets [isProcessing] and records [now], dropping
    changes nothing; and along any run of calls with no [release] in
    between, from any gate state, at most one call is admitted. *)
Theorem dispatch_gate_at_most_one :
  (forall now g,
     fst (tryDispatch now g) = Admit <->
     isProcessing g = false /\ (now - lastDetectionTime g >= 125)%Z) /\
  (forall now g, fst (tryDispatch now g) = Admit ->
     snd (tryDispatch now g) = mkGate true now) /\
  (forall now g, fst (tryDispatch now g) = Drop -> snd (tryDispatch now g) = g) /\
  (forall nows g, length (filter is_admit (fst (dispatchAll nows g))) <= 1).
Proof.
  split; [|split; [|split]].
  - intros now g. unfold tryDispatch, DETECTION_INTERVAL.
    destruct (isProcessing g) eqn:Hp; simpl.
    + rewrite andb_false_r. simpl. split; [discriminate|intros [H _]; discriminate].
    + rewrite andb_true_r. destruct (Z.leb_spec 125 (now - lastDetectionTime g));
        simpl; split; intros; try lia; try discriminate; auto.
  - intros now g H. destruct (tryDispatch_cases now g) as [[_ E]|[E _]]; auto.
    rewrite E in H. discriminate.
  - intros now g H. destruct (tryDispatch_cases now g) as [[E _]|[_ E]]; auto.
    rewrite E in H. discriminate.
  - induction nows as [|now rest IH]; intros g; simpl; [lia|].
    destruct (tryDispatch_cases now g) as [[Ed Eg]|[Ed Eg]];
      destruct (tryDispatch now g) as [d g1]; simpl in Ed, Eg; subst d g1.
    + rewrite dispatchAll_in_flight by reflexivity. simpl.
      clear. induction rest as [|x r IH]; simpl; lia.
    + specialize (IH g). destruct (dispatchAll rest g) as [ds g2]. simpl. exact IH.
Qed.

End GateFacts.

(* ================================================================== *)
(** * Properties of the metrics collector *)

Module MetricsFacts.
Import Metrics.

(** Bounds of the interpolation index [p/100 * (n-1)] for [0 <= p <= 100]. *)
Lemma index_bounds (p : Q) (m : Z) :
  (0 <= p <= 100)%Q -> (0 <= m)%Z ->
  (0 <= p / 100 * inject_Z m <= inject_Z m)%Q.
Proof.
  intros [H0 H100] Hm.
  assert (Hm' : (0 <= inject_Z m)%Q) by (change 0%Q with (inject_Z 0); rewrite <- Zle_Qle; exact Hm).
  assert (Hd0 : (0 <= p / 100)%Q).
  { apply Qle_shift_div_l; [reflexivity|]. rewrite Qmult_0_l. exact H0. }
  assert (Hd1 : (p / 100 <= 1)%Q).
  { apply Qle_shift_div_r; [reflexivity|]. rewrite Qmult_1_l. exact H100. }
  split.
  - apply Qmult_le_0_compat; assumption.
  - rewrite <- (Qmult_1_l (inject_Z m)) at 2. apply Qmult_le_compat_r; assumption.
Qed.

Lemma at_index_in (l : list Q) (i : Z) :
  (0 <= i)%Z -> (i < Z.of_nat (length l))%Z ->
  at_index l i = Some (nth (Z.to_nat i) l 0%Q).
Proof.
  intros H0 H1. unfold at_index.
  destruct (Z.ltb_spec i 0); [lia|]. apply nth_error_nth'. lia.
Qed.

(** C3: [calculatePercentile] returns 0 on the empty array and otherwise,
    for a percentile [0 <= p <= 100], the interpolation of the
    specification between the elements at [floor idx] and [ceil idx],
    [idx = p/100 * (n-1)], weighted by the fractional part of [idx]
    (the guard [upper >= length] never fires there); on [10,20,30,40] the
    median is 25 and the 95th percentile 38.5. *)
Theorem percentile_linear_interpolation :
  (forall p, calculatePercentile [] p = Some 0%Q) /\
  (forall (l : list Q) (p : Q), l <> [] -> (0 <= p <= 100)%Q ->
     exists v, calculatePercentile l p = Some v /\ (v == percentile_spec p l)%Q) /\
  (exists v, calculatePercentile [10; 20; 30; 40]%Q 50 = Some v /\ (v == 25)%Q) /\
  (exists v, calculatePercentile [10; 20; 30; 40]%Q 95 = Some v /\ (v == 77 # 2)%Q).
Proof.
  split; [reflexivity|]. split; [|split; eexists; split; reflexivity].
  intros l p Hl Hp. destruct l as [|x l']; [contradiction|].
  set (l := x :: l').
  assert (Hn : (1 <= Z.of_nat (length l))%Z) by (simpl; lia).
  set (idx := (p / 100 * inject_Z (Z.of_nat (length l) - 1))%Q).
  destruct (index_bounds p (Z.of_nat (length l) - 1) Hp ltac:(lia)) as [Hi0 Hi1].
  fold idx in Hi0, Hi1.
  assert (Hlo : (0 <= Qfloor idx)%Z).
  { change 0%Z with (Qfloor 0). apply Qfloor_resp_le. exact Hi0. }
  assert (Hup0 : (0 <= Qceiling idx)%Z).
  { change 0%Z with (Qceiling 0). apply Qceiling_resp_le. exact Hi0. }
  assert (Hup : (Qceiling idx <= Z.of_nat (length l) - 1)%Z).
  { rewrite <- (Qceiling_Z (Z.of_nat (length l) - 1)). apply Qceiling_resp_le. exact Hi1. }
  assert (Hlo1 : (Qfloor idx <= Z.of_nat (length l) - 1)%Z).
  { rewrite <- (Qfloor_Z (Z.of_nat (length l) - 1)). apply Qfloor_resp_le. exact Hi1. }
  assert (Hw : js_mod1 idx = (idx - inject_Z (Qfloor idx))%Q).
  { unfold js_mod1. replace (Qle_bool 0 idx) with true; [reflexivity|].
    symmetry. apply Qle_bool_iff. exact Hi0. }
  change (calculatePercentile l p) with
    (let len := Z.of_nat (length l) in
     let index := (p / 100 * inject_Z (len - 1))%Q in
     let lower := Qfloor index in
     let upper := Qceiling index in
     let weight := js_mod1 index in
     if (upper >=? len)%Z then Some (last l 0%Q)
     else
       match at_index l lower, at_index l upper with
       | Some lo, Some hi => Some (lo * (1 - weight) + hi * weight)%Q
       | _, _ => None
       end).
  cbv zeta. fold idx. rewrite Hw.
  destruct (Z.geb_spec (Qceiling idx) (Z.of_nat (length l))); [lia|].
  rewrite (at_index_in l (Qfloor idx)) by lia.
  rewrite (at_index_in l (Qceiling idx)) by lia.
  eexists. split; [reflexivity|]. reflexivity.
Qed.

Lemma tl_app {A} (x : list A) (r : list A) : x <> [] -> tl x ++ r = tl (x ++ r).
Proof. destruct x; [contradiction|reflexivity]. Qed.

Lemma skipn_tl {A} (k : nat) (y : list A) : skipn k (tl y) = skipn (S k) y.
Proof. destruct y; [destruct k|]; reflexivity. Qed.

(** One [recordFrame] on a window of at most 100 entries keeps the last 100
    entries of the window extended with the new one. *)
Lemma recordFrame_window d r c :
  length (frameMetrics c) <= 100 ->
  let l := frameMetrics c ++ [frameOf d r] in
  frameMetrics (recordFrame d r c) = skipn (length l - 100) l /\
  length (frameMetrics (recordFrame d r c)) <= 100.
Proof.
  intros Hc l. unfold recordFrame. simpl. fold l.
  assert (Hl : length l = S (length (frameMetrics c))).
  { unfold l. rewrite length_app. simpl. lia. }
  destruct (Nat.ltb_spec 100 (length l)).
  - replace (length l - 100) with 1 by lia.
    destruct l as [|y l'] eqn:E; [discriminate|]. simpl in *. split; [reflexivity|lia].
  - replace (length l - 100) with 0 by lia. split; [reflexivity|lia].
Qed.

Lemma recordAll_window samples c :
  length (frameMetrics c) <= 100 ->
  let l := frameMetrics c ++ map (fun s => frameOf (fst s) (snd s)) samples in
  frameMetrics (recordAll samples c) = skipn (length l - 100) l /\
  processedFrames (recordAll samples c) = (processedFrames c + length samples)%nat.
Proof.
  revert c. induction samples as [|[d r] rest IH]; intros c Hc l.
  - subst l. simpl. rewrite app_nil_r.
    replace (length (frameMetrics c) - 100) with 0 by lia. split; [reflexivity|lia].
  - destruct (recordFrame_window d r c Hc) as [Hw Hlen].
    destruct (IH (recordFrame d r c) Hlen) as [IHw IHp].
    unfold recordAll in *. simpl. split; [|rewrite IHp; simpl; lia].
    rewrite IHw, Hw. subst l. simpl.
    set (x := frameMetrics c ++ [frameOf d r]).
    set (R := map (fun s => frameOf (fst s) (snd s)) rest).
    replace (frameMetrics c ++ frameOf d r :: R) with (x ++ R)
      by (subst x; rewrite <- app_assoc; reflexivity).
    assert (Hx : length x = S (length (frameMetrics c)))
      by (subst x; rewrite length_app; simpl; lia).
    destruct (Nat.leb_spec (length x) 100).
    + replace (length x - 100) with 0 by lia. reflexivity.
    + replace (length x - 100) with 1 by lia.
      change (skipn 1 x) with (tl (skipn 0 x)). simpl skipn at 1.
      rewrite tl_app by (intros E; rewrite E in Hx; discriminate).
      rewrite skipn_tl. f_equal.
      destruct x as [|y x']; [discriminate|]. simpl in *. rewrite length_app in *. lia.
Qed.

(** C4: after [n] calls of [recordFrame] on a new collector the window holds
    exactly the [min n 100] most recent frames, in arrival order (the
    oldest one leaves first), while [processedFrames] reads [n] and each call
    adds one to it; with 101 frames the first one is gone and the counter
    reads 101. *)
Theorem ring_buffer_last_100 :
  (forall (t0 : Z) (samples : list (Z * DetectionResult)),
     let c := recordAll samples (create t0) in
     let all := map (fun s => frameOf (fst s) (snd s)) samples in
     frameMetrics c = skipn (length samples - 100) all /\
     length (frameMetrics c) = Nat.min (length samples) 100 /\
     processedFrames c = length samples) /\
  (forall d r c, processedFrames (recordFrame d r c) = S (processedFrames c)) /\
  (forall (t0 : Z) (first : Z * DetectionResult) (later : list (Z * DetectionResult)),
     length later = 100 ->
     let c := recordAll (first :: later) (create t0) in
     frameMetrics c = map (fun s => frameOf (fst s) (snd s)) later /\
     processedFrames c = 101).
Proof.
  assert (Hmain : forall (t0 : Z) (samples : list (Z * DetectionResult)),
     let c := recordAll samples (create t0) in
     let all := map (fun s => frameOf (fst s) (snd s)) samples in
     frameMetrics c = skipn (length samples - 100) all /\
     length (frameMetrics c) = Nat.min (length samples) 100 /\
     processedFrames c = length samples).
  { intros t0 samples c all.
    destruct (recordAll_window samples (create t0) ltac:(simpl; lia)) as [Hw Hp].
    simpl in Hw, Hp. fold c all in Hw, Hp.
    assert (Ha : length all = length samples) by (subst all; apply length_map).
    rewrite Ha in Hw. split; [exact Hw|split; [|exact Hp]].
    rewrite Hw, length_skipn, Ha. lia. }
  split; [exact Hmain|split; [reflexivity|]].
  intros t0 first later Hl c.
  destruct (Hmain t0 (first :: later)) as [Hw [_ Hp]]. fold c in Hw, Hp.
  simpl length in Hw, Hp. rewrite Hl in Hw, Hp.
  split; [|exact Hp]. rewrite Hw. reflexivity.
Qed.

End MetricsFacts.

(* ================================================================== *)
(** * Properties of the browser peer: reconnection and candidates *)

Module BrowserFacts.
Import Browser.

Definition is_reconnect (e : Effect) : bool :=
  match e with ReconnectAttempt _ => true | _ => false end.

Definition is_restart (e : Effect) : bool :=
  match e with RestartIce => true | _ => false end.

(** Number of reconnect attempts among the effects. *)
Definition reconnects (l : list Effect) : nat := length (filter is_reconnect l).

(** The delays of the scheduled reconnects, in order. *)
Definition delays (l : list Effect) : list Z :=
  flat_map (fun e => match e with ScheduleReconnect d => [d] | _ => [] end) l.

Definition signal_only (e : Event) : Prop :=
  e = WsError \/ e = WsClose \/ e = ReconnectTimer.

Lemma reconnects_app l1 l2 : reconnects (l1 ++ l2) = reconnects l1 + reconnects l2.
Proof. unfold reconnects. rewrite filter_app, length_app. reflexivity. Qed.

Ltac unfold_browser :=
  unfold restartIce, initializeWebRTC, set_reported, emit in *; simpl in *.

(** The effects of a step extend the earlier ones. *)
Lemma step_appends s e : exists new, effects (step s e) = effects s ++ new.
Proof.
  destruct e as [| | | | |[c|] ok th|th|]; simpl; unfold_browser;
    try (eexists; reflexivity);
    try (eexists; rewrite app_nil_r; reflexivity).
  - destruct (pendingTimers s); [exists []; rewrite app_nil_r; reflexivity|].
    destruct (Nat.ltb _ 5); simpl; eexists; [rewrite <- !app_assoc; reflexivity|].
    rewrite app_nil_r; reflexivity.
  - destruct ok; [eexists; reflexivity|].
    destruct (Nat.ltb 3 _); [|eexists; reflexivity].
    destruct th; simpl; eexists; rewrite <- !app_assoc; reflexivity.
  - destruct th; simpl; eexists; rewrite <- ?app_assoc; reflexivity.
Qed.

(** A step other than [WsOpen] adds exactly as many reconnect attempts as it
    raises [reconnectAttempts], which never passes 5. *)
Lemma step_reconnect_count s e :
  e <> WsOpen -> reconnectAttempts s <= 5 ->
  reconnectAttempts s <= reconnectAttempts (step s e) <= 5 /\
  reconnects (effects (step s e)) + reconnectAttempts s
  = reconnects (effects s) + reconnectAttempts (step s e).
Proof.
  intros Hne Ha.
  destruct e as [| | | | |[c|] ok th|th|]; [congruence| | | | | | | |];
    simpl; unfold_browser; unfold reconnects; simpl; rewrite ?filter_app, ?length_app; simpl; try lia.
  - destruct (pendingTimers s); [lia|].
    destruct (Nat.ltb_spec (reconnectAttempts s) 5); simpl;
      unfold reconnects; simpl; rewrite ?filter_app, ?length_app; simpl; lia.
  - destruct ok; [unfold reconnects; simpl; rewrite ?filter_app, ?length_app; simpl; lia|].
    destruct (Nat.ltb 3 _); [destruct th|]; simpl; unfold reconnects; simpl; rewrite ?filter_app, ?length_app; simpl; lia.
  - destruct th; simpl; unfold reconnects; simpl; rewrite ?filter_app, ?length_app; simpl; lia.
Qed.

Lemma run_reconnect_count s es :
  reconnectAttempts s <= 5 -> Forall (fun e => e <> WsOpen) es ->
  reconnectAttempts s <= reconnectAttempts (run s es) <= 5 /\
  reconnects (effects (run s es)) + reconnectAttempts s
  = reconnects (effects s) + reconnectAttempts (run s es).
Proof.
  revert s. induction es as [|e es IH]; intros s Ha Hes; simpl; [lia|].
  inversion Hes as [|? ? He Hrest]; subst.
  destruct (step_reconnect_count s e He Ha) as [Hb Hc].
  destruct (IH (step s e) ltac:(lia) Hrest) as [Hb' Hc']. lia.
Qed.

(** [WsError] schedules with delay [2^reconnectAttempts] seconds; no other
    event schedules a reconnect. *)
Lemma step_delays s e :
  delays (effects (step s e)) =
  delays (effects s) ++
    match e with WsError => [backoff_ms (reconnectAttempts s)] | _ => [] end.
Proof.
  unfold delays.
  destruct e as [| | | | |[c|] ok th|th|]; simpl; unfold_browser;
    repeat match goal with |- context [match ?x with _ => _ end] => destruct x end;
    simpl; rewrite ?flat_map_app; simpl; rewrite ?app_nil_r; reflexivity.
Qed.

Lemma signal_step_terminal s e :
  reconnectAttempts s = 5 -> reported s = SDisconnected -> signal_only e ->
  reconnectAttempts (step s e) = 5 /\ reported (step s e) = SDisconnected /\
  reconnects (effects (step s e)) = reconnects (effects s).
Proof.
  intros Ha Hr [->|[->| ->]]; simpl; unfold_browser; unfold reconnects; simpl; rewrite ?filter_app, ?length_app; simpl;
    auto with arith.
  destruct (pendingTimers s); [auto|]. rewrite Ha. simpl. auto.
Qed.

(** C5: a signaling error schedules the reconnect [2^reconnectAttempts]
    seconds later; along any run of events without a successful open
    ([WsOpen], the only place the counter is reset) the component makes at
    most [5 - reconnectAttempts] reconnect attempts; once 5 attempts are
    spent and the failed socket closed, the reported status stays
    [disconnected] and no attempt follows under further signaling errors,
    closes and timers; from mount, six failures give exactly five attempts,
    with delays 1, 2, 4, 8, 16 and 32 seconds, and end disconnected. *)
Theorem reconnect_backoff_capped :
  (forall s e, delays (effects (step s e)) = delays (effects s) ++
     match e with WsError => [backoff_ms (reconnectAttempts s)] | _ => [] end) /\
  (forall s es, reconnectAttempts s <= 5 -> Forall (fun e => e <> WsOpen) es ->
     reconnects (effects (run s es)) - reconnects (effects s)
     <= 5 - reconnectAttempts s) /\
  (forall s es, reconnectAttempts s = 5 -> reported s = SDisconnected ->
     Forall signal_only es ->
     reported (run s es) = SDisconnected /\
     reconnects (effects (run s es)) = reconnects (effects s)) /\
  (let s := run mount (concat (repeat [WsError; WsClose; ReconnectTimer] 6)) in
   reconnects (effects s) = 5 /\ reconnectAttempts s = 5 /\
   reported s = SDisconnected /\
   delays (effects s) = [1000; 2000; 4000; 8000; 16000; 32000]%Z).
Proof.
  split; [exact step_delays|split; [|split]].
  - intros s es Ha Hes. destruct (run_reconnect_count s es Ha Hes). lia.
  - intros s es. revert s. induction es as [|e es IH]; intros s Ha Hr Hes; simpl; auto.
    inversion Hes as [|? ? He Hrest]; subst.
    destruct (signal_step_terminal s e Ha Hr He) as [Ha' [Hr' Hc']].
    rewrite <- Hc'. apply IH; auto.
  - vm_compute. repeat split.
Qed.

(** The effects of a restart: [restartIce()], then, when it throws, the
    fallback re-initialization. *)
Definition restart_effects (throws : bool) : list Effect :=
  RestartIce :: (if throws then [FallbackReinit; StatusChange SConnecting] else []).

(** C6 (code bug): the candidate-apply [catch] tests [iceFailureCount > 3]
    but never increments the counter, so four consecutive candidate-apply
    failures on a freshly mounted instance issue no restart at all, and the
    failure counter still reads 0. *)
Lemma candidate_failures_issue_no_restart :
  let s := run mount (repeat (MsgIce (Some 1) false false) 4) in
  filter is_restart (effects s) = [] /\ iceFailureCount s = 0.
Proof. split; reflexivity. Qed.

(** X19: [iceFailureCount] counts ICE
    connection-state failures, each of which issues a restart at once, and
    resets to 0 when the ICE state becomes [connected]; a candidate-apply
    failure leaves it unchanged and issues one restart exactly when it
    exceeds 3; a restart that throws falls back to [initializeWebRTC]. *)
Theorem ice_failure_counter_policy :
  (forall s c throws,
     let s' := step s (MsgIce (Some c) false throws) in
     iceFailureCount s' = iceFailureCount s /\
     effects s' = effects s ++ AddIceCandidate c (remoteDescriptionSet s) ::
                  (if Nat.ltb 3 (iceFailureCount s) then restart_effects throws else [])) /\
  (forall s c throws,
     let s' := step s (MsgIce (Some c) true throws) in
     iceFailureCount s' = iceFailureCount s /\
     effects s' = effects s ++ [AddIceCandidate c (remoteDescriptionSet s)]) /\
  (forall s throws,
     let s' := step s (IceFailed throws) in
     iceFailureCount s' = S (iceFailureCount s) /\
     effects s' = effects s ++ restart_effects throws) /\
  (forall s, iceFailureCount (step s IceConnected) = 0 /\
             effects (step s IceConnected) = effects s).
Proof.
  split; [|split; [|split]].
  - intros s c throws s'. subst s'. simpl. unfold_browser.
    destruct (Nat.ltb 3 (iceFailureCount s)); [destruct throws|]; simpl;
      rewrite <- ?app_assoc; split; reflexivity.
  - intros s c throws s'. subst s'. simpl. split; reflexivity.
  - intros s throws s'. subst s'. simpl. unfold_browser.
    destruct throws; simpl; rewrite <- ?app_assoc; split; reflexivity.
  - intros s. split; reflexivity.
Qed.

(** Candidates among the effects (those passed to [addIceCandidate]) and
    among the events (those received), in order. *)
Definition applied (l : list Effect) : list nat :=
  flat_map (fun e => match e with AddIceCandidate c _ => [c] | _ => [] end) l.

Definition arrived (es : list Event) : list nat :=
  flat_map (fun e => match e with MsgIce (Some c) _ _ => [c] | _ => [] end) es.

Lemma step_applied s e :
  applied (effects (step s e)) = applied (effects s) ++ arrived [e].
Proof.
  unfold applied, arrived.
  destruct e as [| | | | |[c|] ok th|th|]; simpl; unfold_browser;
    repeat match goal with |- context [match ?x with _ => _ end] => destruct x end;
    simpl; rewrite ?flat_map_app; simpl; rewrite ?app_nil_r; reflexivity.
Qed.

Definition phone_arrived (es : list Phone.Event) : list nat :=
  flat_map (fun e => match e with Phone.PIce (Some c) => [c] | _ => [] end) es.

(** C7 (counterexample): a candidate that reaches the browser before the
    answer is passed to [addIceCandidate] at once, with no remote
    description set; the phone does the same with a candidate that arrives
    before the offer. *)
Lemma candidate_applied_before_remote_description :
  effects (run mount [MsgIce (Some 7) true false])
  = [StatusChange SConnecting; AddIceCandidate 7 false] /\
  Phone.p_applied (Phone.run (Phone.mkP false []) [Phone.PIce (Some 7)]) = [(7, false)].
Proof. split; reflexivity. Qed.

(** C7 (as the peers do it): each received candidate is passed to
    [addIceCandidate] in the very step it arrives, whether or not a remote
    description is set (the flag recorded with it); nothing is buffered,
    so the candidates reach the transport exactly in arrival order; the
    same holds on the phone. *)
Theorem candidates_applied_on_arrival :
  (forall s c ok throws, exists rest,
     effects (step s (MsgIce (Some c) ok throws))
     = effects s ++ AddIceCandidate c (remoteDescriptionSet s) :: rest) /\
  (forall s es, applied (effects (run s es)) = applied (effects s) ++ arrived es) /\
  (forall s c, Phone.step s (Phone.PIce (Some c))
     = Phone.mkP (Phone.p_remoteDescriptionSet s)
         (Phone.p_applied s ++ [(c, Phone.p_remoteDescriptionSet s)])) /\
  (forall s es, map fst (Phone.p_applied (Phone.run s es))
     = map fst (Phone.p_applied s) ++ phone_arrived es).
Proof.
  split; [|split; [|split]].
  - intros s c ok throws. simpl. unfold_browser.
    destruct ok; [exists []; reflexivity|].
    destruct (Nat.ltb 3 (iceFailureCount s)); [destruct throws|];
      simpl; rewrite <- ?app_assoc; eexists; reflexivity.
  - intros s es. revert s. induction es as [|e es IH]; intros s; simpl.
    + rewrite app_nil_r. reflexivity.
    + rewrite IH, step_applied, <- app_assoc. unfold arrived. simpl.
      rewrite app_nil_r. reflexivity.
  - intros s c. reflexivity.
  - intros s es. revert s. induction es as [|[|[c|]] es IH]; intros s; simpl.
    + rewrite app_nil_r. reflexivity.
    + rewrite IH. reflexivity.
    + rewrite IH. simpl. rewrite map_app, <- app_assoc. reflexivity.
    + rewrite IH. reflexivity.
Qed.

End BrowserFacts.

(* ================================================================== *)
(** * Properties of the detection endpoint *)

Module DetectionFacts.
Import Detection.

Definition meta0 : Metadata := mkMeta (JStr "frame_1000") (Finite 1000) 1040%Z.

Definition rs0 : list Q :=
  [1 # 10; 1 # 2; 1 # 2; 1 # 2; 1 # 2; 1 # 2; 1; 1; 1; 1; 1; 1]%Q.

Lemma processImageAndDetect_ok imageData sharp rs :
  processImageAndDetect imageData sharp rs = Ok (generateEnhancedMockDetections rs).
Proof.
  destruct imageData as [| | | |s| |]; try reflexivity.
  unfold processImageAndDetect. simpl. destruct (sharp _); reflexivity.
Qed.

Lemma detectObjects_ok modelLoaded imageData sharp rs md its :
  detectObjects modelLoaded imageData sharp rs md its =
  Ok (mkResponse (m_frame_id md) (m_capture_ts md) (m_recv_ts md) its
        (generateEnhancedMockDetections rs)).
Proof.
  unfold detectObjects. destruct modelLoaded; [reflexivity|].
  rewrite processImageAndDetect_ok. reflexivity.
Qed.

(** C9 (counterexample): when [sharp] cannot read the image, or the image
    is not a string at all, the failure is caught inside
    [processImageAndDetect], which answers with the mock generator; with
    the first [Math.random()] below 0.2 a [person] is reported, so the
    detections are not empty. *)
Lemma decode_failure_yields_detections :
  (exists r, detectObjects false (JStr "data:image/jpeg;base64,AAAA") (fun _ => Throw)
               rs0 meta0 1050%Z = Ok r /\ detections r <> []) /\
  (exists r, detectObjects false (JNum 5) (fun _ => Ok (JNum 640, JNum 480))
               rs0 meta0 1050%Z = Ok r /\ detections r <> []).
Proof.
  split; eexists; split; try reflexivity; vm_compute; discriminate.
Qed.

(** C9 (as [detectObjects] does it): its [try]/[catch] always returns a
    response carrying the request's [frame_id], [capture_ts] and [recv_ts],
    with detections [[]] exactly when the detection step throws and the
    step's own list otherwise; the step of the server never throws, because
    [processImageAndDetect] catches a non-string image and a failure of
    [sharp] and answers with the mock detections; so [detectObjects] never
    throws and always returns the mock detections. *)
Theorem detect_objects_soft_failure :
  (forall md its step,
     catchDetection md its step =
     Ok (mkResponse (m_frame_id md) (m_capture_ts md) (m_recv_ts md) its
           (match step with Ok ds => ds | Throw => [] end))) /\
  (forall imageData sharp rs,
     processImageAndDetect imageData sharp rs = Ok (generateEnhancedMockDetections rs)) /\
  (forall modelLoaded imageData sharp rs md its,
     detectObjects modelLoaded imageData sharp rs md its =
     Ok (mkResponse (m_frame_id md) (m_capture_ts md) (m_recv_ts md) its
           (generateEnhancedMockDetections rs))).
Proof.
  split; [|split].
  - intros md its [ds|]; reflexivity.
  - exact processImageAndDetect_ok.
  - exact detectObjects_ok.
Qed.

End DetectionFacts.

(* ================================================================== *)
(** * Properties of the relay's forwarding and close handling *)

Module RelayRoutingFacts.
Import Relay.

Lemma opt_eqb_eq a b : opt_eqb a b = true -> a = b.
Proof.
  destruct a, b; simpl; try discriminate; auto.
  intros H. apply String.eqb_eq in H. subst. reflexivity.
Qed.

(** Forwarding to the first socket of the sender's room that passes a test:
    either nothing is sent or one message goes to such a socket. *)
Lemma forward_first (w : World) (ws : nat) (f : nat -> bool) (ty : string) :
  let connections := get_or_empty (roomId (clients w ws)) (roomConnections w) in
  (match find f connections with Some c => send w c ty | None => w end) = w \/
  exists c, (match find f connections with Some c => send w c ty | None => w end)
            = send w c ty /\ f c = true /\ In c connections.
Proof.
  intros connections. destruct (find f connections) as [c|] eqn:E; [right|left; reflexivity].
  apply find_some in E. destruct E as [Hin Hf]. exists c. auto.
Qed.

(** X1: [handleOffer] forwards an offer to at most one socket, the first
    socket of the sender's room registered as [phone]; a sender that never
    registered (its [roomId] is [undefined]) has nothing forwarded. *)
Theorem offer_forwarded_to_phone (w : World) (ws : nat) :
  (roomId (clients w ws) = None -> handleOffer w ws = w) /\
  (handleOffer w ws = w \/
   exists p, handleOffer w ws = send w p "offer" /\
     role (clients w p) = Some "phone" /\
     In p (get_or_empty (roomId (clients w ws)) (roomConnections w))).
Proof.
  split.
  - intros H. unfold handleOffer. rewrite H. reflexivity.
  - destruct (forward_first w ws (fun c => opt_eqb (role (clients w c)) (Some "phone")) "offer")
      as [H|[p [H [Hr Hin]]]]; unfold handleOffer; [left; exact H|right].
    exists p. split; [exact H|]. split; [apply opt_eqb_eq; exact Hr|exact Hin].
Qed.

(** X2: [handleAnswer] forwards an answer to at most one socket, the first
    socket of the sender's room registered as [browser]; a sender that never
    registered has nothing forwarded. *)
Theorem answer_forwarded_to_browser (w : World) (ws : nat) :
  (roomId (clients w ws) = None -> handleAnswer w ws = w) /\
  (handleAnswer w ws = w \/
   exists b, handleAnswer w ws = send w b "answer" /\
     role (clients w b) = Some "browser" /\
     In b (get_or_empty (roomId (clients w ws)) (roomConnections w))).
Proof.
  split.
  - intros H. unfold handleAnswer. rewrite H. reflexivity.
  - destruct (forward_first w ws (fun c => opt_eqb (role (clients w c)) (Some "browser")) "answer")
      as [H|[p [H [Hr Hin]]]]; unfold handleAnswer; [left; exact H|right].
    exists p. split; [exact H|]. split; [apply opt_eqb_eq; exact Hr|exact Hin].
Qed.

(** X3: [handleIceCandidate] never sends a candidate back to its sender: it
    forwards it to at most one socket, an open one of the sender's room
    other than the sender, or drops it. *)
Theorem ice_candidate_never_echoed (w : World) (ws : nat) :
  (roomId (clients w ws) = None -> handleIceCandidate w ws = w) /\
  (handleIceCandidate w ws = w \/
   exists o, handleIceCandidate w ws = send w o "ice-candidate" /\
     o <> ws /\ readyState (clients w o) = OPEN /\
     In o (get_or_empty (roomId (clients w ws)) (roomConnections w))).
Proof.
  split.
  - intros H. unfold handleIceCandidate. rewrite H. reflexivity.
  - destruct (forward_first w ws
                (fun c => negb (Nat.eqb c ws) && Nat.eqb (readyState (clients w c)) OPEN)
                "ice-candidate") as [H|[o [H [Hf Hin]]]];
      unfold handleIceCandidate; [left; exact H|right].
    exists o. split; [exact H|].
    apply andb_prop in Hf. destruct Hf as [Hne Hopen].
    apply negb_true_iff, Nat.eqb_neq in Hne. apply Nat.eqb_eq in Hopen. auto.
Qed.

Lemma splice_first_count ws l i :
  findIndex (Nat.eqb ws) l = Some i ->
  count_occ Nat.eq_dec (splice1 i l) ws = pred (count_occ Nat.eq_dec l ws) /\
  forall c, c <> ws -> count_occ Nat.eq_dec (splice1 i l) c = count_occ Nat.eq_dec l c.
Proof.
  revert i. induction l as [|x l IH]; intros i H; simpl in H; [discriminate|].
  destruct (Nat.eqb_spec ws x) as [<-|Hne].
  - injection H as <-. simpl. destruct (Nat.eq_dec ws ws); [|contradiction].
    split; [reflexivity|]. intros c Hc. destruct (Nat.eq_dec ws c); [congruence|reflexivity].
  - destruct (findIndex (Nat.eqb ws) l) as [j|] eqn:E; [|discriminate].
    injection H as <-. destruct (IH j eq_refl) as [H1 H2]. simpl.
    destruct (Nat.eq_dec x ws); [congruence|]. split; [exact H1|].
    intros c Hc. destruct (Nat.eq_dec x c); rewrite H2 by exact Hc; reflexivity.
Qed.

Lemma findIndex_none_count ws l :
  findIndex (Nat.eqb ws) l = None -> count_occ Nat.eq_dec l ws = 0.
Proof.
  induction l as [|x l IH]; simpl; [reflexivity|].
  destruct (Nat.eqb_spec ws x); [discriminate|].
  destruct (findIndex (Nat.eqb ws) l); [discriminate|]. intros _.
  destruct (Nat.eq_dec x ws); [congruence|]. apply IH. reflexivity.
Qed.

Definition main_conns (w : World) : list nat := get_or_empty (Some main_room) (roomConnections w).

(** X4: closing an open socket removes exactly one of its registrations from
    the room (the first one) and leaves every other socket's registrations
    as they were; the room entry goes once it is empty. *)
Theorem close_removes_one_registration (es : list Event) (ws : nat)
  (Hopen : is_open (run init es) ws = true) :
  let w := run init es in
  let w' := step w (EClose ws) in
  count_occ Nat.eq_dec (main_conns w') ws = pred (count_occ Nat.eq_dec (main_conns w) ws) /\
  (forall c, c <> ws -> count_occ Nat.eq_dec (main_conns w') c = count_occ Nat.eq_dec (main_conns w) c) /\
  (main_conns w' = [] -> roomConnections w' = []).
Proof.
  intros w w'. pose proof (RelayFacts.reachable_shape es) as Hs. fold w in Hs, Hopen.
  subst w'. simpl. rewrite Hopen. unfold onClose, main_conns. simpl.
  destruct Hs as [Hm | [conns [Hne Hm]]]; rewrite Hm; simpl.
  - auto.
  - destruct (findIndex (Nat.eqb ws) conns) as [i|] eqn:E.
    + destruct (splice_first_count ws conns i E) as [H1 H2].
      destruct (splice1 i conns) as [|x l] eqn:Es; simpl in *.
      * unfold get_or_empty; simpl. rewrite <- H1. split; [reflexivity|].
        split; [|reflexivity]. intros c Hc. rewrite <- H2 by exact Hc. reflexivity.
      * unfold get_or_empty, main_room; simpl. rewrite <- Es in *.
        split; [exact H1|]. split; [exact H2|]. intros H. rewrite Es in H. discriminate.
    + unfold get_or_empty, main_room; simpl.
      rewrite (findIndex_none_count ws conns E). split; [reflexivity|]. split; [reflexivity|]. intros H; subst conns; contradiction.
Qed.

Lemma close_removes_one_registration_witness :
  is_open (run init [EJoin 1 (Some "phone")]) 1 = true /\
  count_occ Nat.eq_dec (main_conns (step (run init [EJoin 1 (Some "phone")]) (EClose 1))) 1
  = pred (count_occ Nat.eq_dec (main_conns (run init [EJoin 1 (Some "phone")])) 1).
Proof.
  split; [reflexivity|].
  exact (proj1 (close_removes_one_registration [EJoin 1 (Some "phone")] 1 eq_refl)).
Defined.

(** X5: a socket that registered under both roles is in the room twice, so
    when it closes one copy stays behind: the room then lists the closed
    socket, and a phone's answer is forwarded to it. *)
Theorem closed_socket_left_in_room :
  let w := run init [EJoin 1 (Some "phone"); EJoin 1 (Some "browser"); EClose 1;
                     EJoin 2 (Some "phone"); EAnswer 2] in
  main_conns w = [1; 2] /\ readyState (clients w 1) = CLOSED /\
  outbox w = [(1, "answer")].
Proof. vm_compute. auto. Qed.

End RelayRoutingFacts.

(* ================================================================== *)
(** * Properties of the older relay *)

Module RelayV1Facts.
Import Relay RelayV1.

(** The messages one step of the older relay sends. *)
Lemma step1_sends (w : World) (e : Event1) :
  exists new, outbox (step1 w e) = outbox w ++ new /\
    forall c, In (c, "create-offer") new -> e = SStart c (Some "browser").
Proof.
  assert (Hnone : forall c : nat, In (c, "create-offer") [] -> e = SStart c (Some "browser"))
    by (intros c []).
  destruct e as [ws r|ws r|ws|ws|ws|ws]; simpl;
    try (destruct (is_open w ws); [|exists []; rewrite app_nil_r; auto]).
  - unfold handleStartStream1.
    destruct (find _ _) as [p|]; [|exists []; simpl; rewrite app_nil_r; auto].
    destruct (find _ _) as [b|]; [|exists []; simpl; rewrite app_nil_r; auto].
    destruct (negb (Nat.eqb p b) && opt_eqb r (Some "browser")) eqn:E;
      [|exists []; simpl; rewrite app_nil_r; auto].
    exists [(ws, "create-offer")]. split; [reflexivity|].
    intros c [Hc|[]]. injection Hc as ->. apply andb_prop in E. destruct E as [_ E].
    apply RelayRoutingFacts.opt_eqb_eq in E. subst r. reflexivity.
  - exists []. rewrite app_nil_r. auto.
  - unfold handleOffer. destruct (find _ _) as [p|]; [|exists []; rewrite app_nil_r; auto].
    exists [(p, "offer")]. split; [reflexivity|]. intros c [Hc|[]]. discriminate.
  - unfold handleAnswer. destruct (find _ _) as [p|]; [|exists []; rewrite app_nil_r; auto].
    exists [(p, "answer")]. split; [reflexivity|]. intros c [Hc|[]]. discriminate.
  - unfold handleIceCandidate1. destruct (find _ _) as [p|]; [|exists []; rewrite app_nil_r; auto].
    exists [(p, "ice-candidate")]. split; [reflexivity|]. intros c [Hc|[]]. discriminate.
  - exists []. unfold onClose. simpl. rewrite app_nil_r. auto.
Qed.

(** X6: the older relay sends [create-offer] only in reply to a
    ['start-stream'] registration as [browser], to the registering socket;
    so a phone registering after the browser starts no negotiation, and a
    browser registering with ['join'] is not registered at all. *)
Theorem v1_negotiation_depends_on_order :
  (forall w e, exists new, outbox (step1 w e) = outbox w ++ new /\
     forall c, In (c, "create-offer") new -> e = SStart c (Some "browser")) /\
  outbox (run1 init [SStart 1 (Some "phone"); SStart 2 (Some "browser")])
    = [(2, "create-offer")] /\
  outbox (run1 init [SStart 2 (Some "browser"); SStart 1 (Some "phone")]) = [] /\
  (let w := run1 init [SJoin 2 (Some "browser"); SStart 1 (Some "phone")] in
   get_or_empty (Some main_room) (roomConnections w) = [1] /\ outbox w = []).
Proof.
  split; [exact step1_sends|]. vm_compute. auto.
Qed.

End RelayV1Facts.

Module LoopFacts.
Import Gate Metrics Loop.
Open Scope Z_scope.

(** Each time of the list is at least [DETECTION_INTERVAL] after the one
    before it, the first after [prev]. *)
Fixpoint spaced_from (prev : Z) (l : list Z) : Prop :=
  match l with
  | [] => True
  | x :: l' => DETECTION_INTERVAL <= x - prev /\ spaced_from x l'
  end.

Lemma last_cons_default (z : Z) l d1 d2 : last (z :: l) d1 = last (z :: l) d2.
Proof. revert z. induction l as [|y l IH]; intros z; [reflexivity|]. apply IH. Qed.

Lemma spaced_from_snoc prev l x :
  spaced_from prev l -> DETECTION_INTERVAL <= x - last l prev ->
  spaced_from prev (l ++ [x]).
Proof.
  revert prev. induction l as [|y l IH]; intros prev H Hx; simpl in *.
  - auto.
  - destruct H as [H1 H2]. split; [exact H1|]. apply IH; [exact H2|].
    destruct l as [|z l]; [exact Hx|]. rewrite (last_cons_default z l y prev). exact Hx.
Qed.

Lemma last_snoc (l : list Z) x d : last (l ++ [x]) d = x.
Proof.
  induction l as [|y l IH]; [reflexivity|]. simpl. rewrite IH.
  destruct (l ++ [x]) eqn:E; [destruct l; discriminate|reflexivity].
Qed.

Definition spacing_inv (s : LoopState) : Prop :=
  spaced_from 0 (admitted s) /\ lastDetectionTime (gate s) = last (admitted s) 0.

Lemma loop_step_spacing s e : spacing_inv s -> spacing_inv (loop_step s e).
Proof.
  intros [Hsp Hlast]. destruct e as [now|d r]; simpl.
  - unfold tryDispatch.
    destruct (DETECTION_INTERVAL <=? now - lastDetectionTime (gate s)) eqn:E1;
      destruct (isProcessing (gate s)); simpl; try (split; assumption).
    apply Z.leb_le in E1. split; simpl.
    + apply spaced_from_snoc; [exact Hsp|]. rewrite <- Hlast. exact E1.
    + rewrite last_snoc. reflexivity.
  - destruct (isProcessing (gate s)); [|split; assumption].
    split; simpl; assumption.
Qed.

(** X7: the frames the loop admits are at least [DETECTION_INTERVAL] = 125 ms
    apart, also across the [finally] that clears [isProcessing]: the
    interval is counted from the previous admission, not from the end of
    its detection. *)
Theorem admissions_spaced (c : MetricsCollector) (es : list LEvent) :
  spaced_from 0 (admitted (loop_run (mkLoop gate_init c []) es)).
Proof.
  assert (H : forall es s, spacing_inv s -> spacing_inv (loop_run s es)).
  { induction es0 as [|e es0 IH]; intros s Hs; simpl; [exact Hs|].
    apply IH. apply loop_step_spacing. exact Hs. }
  apply (H es (mkLoop gate_init c [])). split; simpl; auto.
Qed.

Close Scope Z_scope.

Definition count_inv (c0 : MetricsCollector) (s : LoopState) : Prop :=
  (processedFrames (collector s) + (if isProcessing (gate s) then 1 else 0)
   <= processedFrames c0 + length (admitted s))%nat.

Lemma loop_step_count c0 s e : count_inv c0 s -> count_inv c0 (loop_step s e).
Proof.
  unfold count_inv. intros H. destruct e as [now|d r]; simpl.
  - unfold tryDispatch.
    destruct (DETECTION_INTERVAL <=? now - lastDetectionTime (gate s))%Z;
      destruct (isProcessing (gate s)) eqn:Ep; simpl in *;
      rewrite ?Ep, ?length_app in *; simpl; lia.
  - destruct (isProcessing (gate s)) eqn:Ep; [|simpl; rewrite Ep; lia].
    destruct r; simpl in *; lia.
Qed.

(** X8: [processedFrames] counts only detections that came back: every
    counted frame was admitted by the gate, a frame whose request failed or
    threw is never counted, and a frame still in flight is not counted yet. *)
Theorem processed_frames_bounded_by_admissions (c : MetricsCollector) (es : list LEvent) :
  let s := loop_run (mkLoop gate_init c []) es in
  (processedFrames (collector s) + (if isProcessing (gate s) then 1 else 0)
   <= processedFrames c + length (admitted s))%nat /\
  (forall d, loop_step s (Complete d None) =
     mkLoop (release (gate s)) (collector s) (admitted s) \/
   loop_step s (Complete d None) = s).
Proof.
  intros s. split.
  - assert (H : forall es s, count_inv c s -> count_inv c (loop_run s es)).
    { induction es0 as [|e es0 IH]; intros s0 Hs; simpl; [exact Hs|].
      apply IH. apply loop_step_count. exact Hs. }
    apply (H es (mkLoop gate_init c [])). unfold count_inv. simpl. lia.
  - intros d. simpl. destruct (isProcessing (gate s)); [left|right]; reflexivity.
Qed.

End LoopFacts.

(* ================================================================== *)
(** * Properties of [calculatePercentile], [getMetrics] and [exportMetrics] *)

Module PercentileFacts.
Import Metrics MetricsOps.

Lemma Zle_of_Q a b : (inject_Z a <= inject_Z b)%Q -> (a <= b)%Z.
Proof. rewrite <- Zle_Qle. auto. Qed.

Lemma Zlt_of_Q a b : (inject_Z a < inject_Z b)%Q -> (a < b)%Z.
Proof. rewrite <- Zlt_Qlt. auto. Qed.

Lemma floor_ceiling_gap x : (Qfloor x <= Qceiling x <= Qfloor x + 1)%Z.
Proof.
  pose proof (Qfloor_le x). pose proof (Qle_ceiling x).
  pose proof (Qceiling_lt x). pose proof (Qlt_floor x).
  split.
  - apply Zle_of_Q. lra.
  - assert (H3 : (Qceiling x - 1 < Qfloor x + 1)%Z)
      by (apply Zlt_of_Q; apply (Qlt_trans _ x); assumption). lia.
Qed.

Lemma ceiling_above_floor x :
  (inject_Z (Qfloor x) < x)%Q -> Qceiling x = (Qfloor x + 1)%Z.
Proof.
  intros H. pose proof (Qle_ceiling x). pose proof (floor_ceiling_gap x).
  assert (H2 : (Qfloor x < Qceiling x)%Z) by (apply Zlt_of_Q; lra). lia.
Qed.

(** The interpolation [calculatePercentile] computes at index [x]. *)
Definition interp (l : list Q) (x : Q) : Q :=
  (nth (Z.to_nat (Qfloor x)) l 0 * (1 - (x - inject_Z (Qfloor x)))
   + nth (Z.to_nat (Qceiling x)) l 0 * (x - inject_Z (Qfloor x)))%Q.

Definition sorted_q (l : list Q) : Prop :=
  forall i j, i <= j < length l -> (nth i l 0 <= nth j l 0)%Q.

Lemma percentile_interp (l : list Q) (p : Q) :
  l <> [] -> (0 <= p <= 100)%Q ->
  let x := (p / 100 * inject_Z (Z.of_nat (length l) - 1))%Q in
  calculatePercentile l p = Some (interp l x) /\
  (0 <= x <= inject_Z (Z.of_nat (length l) - 1))%Q.
Proof.
  intros Hl Hp x.
  destruct (MetricsFacts.index_bounds p (Z.of_nat (length l) - 1) Hp
                ltac:(destruct l as [|? r]; [contradiction|change (length (_ :: r)) with (S (length r)); lia]))
    as [Hi0 Hi1].
  fold x in Hi0, Hi1. split; [|split; assumption].
  destruct l as [|y l']; [contradiction|].
  set (l := y :: l') in *.
  assert (Hup : (Qceiling x <= Z.of_nat (length l) - 1)%Z).
  { rewrite <- (Qceiling_Z (Z.of_nat (length l) - 1)). apply Qceiling_resp_le. exact Hi1. }
  assert (Hlo : (0 <= Qfloor x)%Z).
  { change 0%Z with (Qfloor 0). apply Qfloor_resp_le. exact Hi0. }
  pose proof (floor_ceiling_gap x).
  assert (Hw : js_mod1 x = (x - inject_Z (Qfloor x))%Q).
  { unfold js_mod1. replace (Qle_bool 0 x) with true; [reflexivity|].
    symmetry. apply Qle_bool_iff. exact Hi0. }
  change (calculatePercentile l p) with
    (let len := Z.of_nat (length l) in
     let index := (p / 100 * inject_Z (len - 1))%Q in
     let lower := Qfloor index in
     let upper := Qceiling index in
     let weight := js_mod1 index in
     if (upper >=? len)%Z then Some (last l 0%Q)
     else
       match at_index l lower, at_index l upper with
       | Some lo, Some hi => Some (lo * (1 - weight) + hi * weight)%Q
       | _, _ => None
       end).
  cbv zeta. fold x. rewrite Hw.
  destruct (Z.geb_spec (Qceiling x) (Z.of_nat (length l))); [lia|].
  rewrite (MetricsFacts.at_index_in l (Qfloor x)) by lia.
  rewrite (MetricsFacts.at_index_in l (Qceiling x)) by lia.
  reflexivity.
Qed.

Lemma index_range (l : list Q) x :
  (0 <= x <= inject_Z (Z.of_nat (length l) - 1))%Q ->
  (0 <= Qfloor x)%Z /\ (Qfloor x <= Qceiling x <= Qfloor x + 1)%Z /\
  (Qceiling x <= Z.of_nat (length l) - 1)%Z.
Proof.
  intros [H0 H1]. split; [|split; [apply floor_ceiling_gap|]].
  - change 0%Z with (Qfloor 0). apply Qfloor_resp_le. exact H0.
  - rewrite <- (Qceiling_Z (Z.of_nat (length l) - 1)). apply Qceiling_resp_le. exact H1.
Qed.

Lemma weight_range x :
  (0 <= x - inject_Z (Qfloor x) < 1)%Q.
Proof.
  pose proof (Qfloor_le x). pose proof (Qlt_floor x).
  rewrite inject_Z_plus in H0. change (inject_Z 1) with 1%Q in H0. lra.
Qed.

Lemma interp_bounds (l : list Q) x :
  sorted_q l -> (0 <= x <= inject_Z (Z.of_nat (length l) - 1))%Q ->
  (nth (Z.to_nat (Qfloor x)) l 0 <= interp l x <= nth (Z.to_nat (Qceiling x)) l 0)%Q.
Proof.
  intros Hs Hx. destruct (index_range l x Hx) as [H0 [[H1 H2] H3]].
  assert (Hab : (nth (Z.to_nat (Qfloor x)) l 0 <= nth (Z.to_nat (Qceiling x)) l 0)%Q)
    by (apply Hs; lia).
  pose proof (weight_range x). unfold interp.
  set (a := nth (Z.to_nat (Qfloor x)) l 0%Q) in *.
  set (b := nth (Z.to_nat (Qceiling x)) l 0%Q) in *.
  set (w := (x - inject_Z (Qfloor x))%Q) in *.
  split; nra.
Qed.

Lemma interp_mono (l : list Q) x y :
  sorted_q l -> (0 <= x)%Q -> (x <= y)%Q -> (y <= inject_Z (Z.of_nat (length l) - 1))%Q ->
  (interp l x <= interp l y)%Q.
Proof.
  intros Hs H0 Hxy H1.
  assert (Hx : (0 <= x <= inject_Z (Z.of_nat (length l) - 1))%Q) by lra.
  assert (Hy : (0 <= y <= inject_Z (Z.of_nat (length l) - 1))%Q) by lra.
  pose proof (interp_bounds l x Hs Hx) as [Bx1 Bx2].
  pose proof (interp_bounds l y Hs Hy) as [By1 By2].
  destruct (index_range l x Hx) as [Rx0 [[Rx1 Rx2] Rx3]].
  destruct (index_range l y Hy) as [Ry0 [[Ry1 Ry2] Ry3]].
  assert (Hfl : (Qfloor x <= Qfloor y)%Z) by (apply Qfloor_resp_le; exact Hxy).
  destruct (Z.lt_ge_cases (Qfloor x) (Qfloor y)) as [Hlt|Hge].
  - assert (nth (Z.to_nat (Qceiling x)) l 0 <= nth (Z.to_nat (Qfloor y)) l 0)%Q
      by (apply Hs; lia).
    lra.
  - assert (Heq : Qfloor y = Qfloor x) by lia.
    pose proof (Qfloor_le x) as Fx.
    destruct (Qlt_le_dec (inject_Z (Qfloor x)) x) as [Hgt|Hle].
    + assert (Hcx := ceiling_above_floor x Hgt).
      assert (Hcy : Qceiling y = (Qfloor y + 1)%Z)
        by (apply ceiling_above_floor; rewrite Heq; lra).
      assert (Hab : (nth (Z.to_nat (Qfloor x)) l 0 <= nth (Z.to_nat (Qceiling x)) l 0)%Q)
        by (apply Hs; lia).
      unfold interp. rewrite Hcy, Heq, <- Hcx in *.
      set (a := nth (Z.to_nat (Qfloor x)) l 0%Q) in *.
      set (b := nth (Z.to_nat (Qceiling x)) l 0%Q) in *.
      set (K := inject_Z (Qfloor x)) in *. nra.
    + assert (Hab : (nth (Z.to_nat (Qfloor x)) l 0 <= nth (Z.to_nat (Qceiling x)) l 0)%Q)
        by (apply Hs; lia).
      rewrite Heq in By1. unfold interp in *.
      set (a := nth (Z.to_nat (Qfloor x)) l 0%Q) in *.
      set (b := nth (Z.to_nat (Qceiling x)) l 0%Q) in *.
      set (K := inject_Z (Qfloor x)) in *. nra.
Qed.

Lemma last_nth_q (l : list Q) d : last l d = nth (length l - 1) l d.
Proof.
  induction l as [|x l IH]; [reflexivity|].
  destruct l as [|y l']; [reflexivity|].
  change (last (x :: y :: l') d) with (last (y :: l') d). rewrite IH.
  simpl. rewrite Nat.sub_0_r. reflexivity.
Qed.

Lemma div100_le p q : (p <= q)%Q -> (p / 100 <= q / 100)%Q.
Proof. intros H. apply Qmult_le_compat_r; [exact H|]. discriminate. Qed.

(** Percentiles of a sorted array grow with [p] and stay between its first
    and last elements. *)
Lemma percentile_mono_core (l : list Q) (p q : Q) :
  sorted_q l -> l <> [] -> (0 <= p)%Q -> (p <= q)%Q -> (q <= 100)%Q ->
  exists a b, calculatePercentile l p = Some a /\ calculatePercentile l q = Some b /\
    (nth 0 l 0 <= a)%Q /\ (a <= b)%Q /\ (b <= nth (length l - 1) l 0)%Q.
Proof.
  intros Hs Hl Hp Hpq Hq.
  destruct (percentile_interp l p Hl ltac:(split; lra)) as [Hcp Hxp].
  destruct (percentile_interp l q Hl ltac:(split; lra)) as [Hcq Hxq].
  set (n1 := inject_Z (Z.of_nat (length l) - 1)) in *.
  exists (interp l (p / 100 * n1)), (interp l (q / 100 * n1)).
  split; [exact Hcp|]. split; [exact Hcq|].
  assert (Hlen : (1 <= length l)%nat) by (destruct l; [contradiction|simpl; lia]).
  split; [|split].
  - destruct (interp_bounds l _ Hs Hxp) as [B _].
    destruct (index_range l _ Hxp) as [R0 _].
    assert (nth 0 l 0 <= nth (Z.to_nat (Qfloor (p / 100 * n1))) l 0)%Q
      by (apply Hs; destruct (index_range l _ Hxp) as [_ [[R1 _] R3]]; lia).
    lra.
  - apply interp_mono; [exact Hs|apply Hxp| |apply Hxq].
    apply Qmult_le_compat_r; [apply div100_le; exact Hpq|].
    apply (Qle_trans _ (p / 100 * n1)); apply Hxp.
  - destruct (interp_bounds l _ Hs Hxq) as [_ B].
    destruct (index_range l _ Hxq) as [R0 [_ R3]].
    assert (nth (Z.to_nat (Qceiling (q / 100 * n1))) l 0 <= nth (length l - 1) l 0)%Q
      by (apply Hs; lia).
    lra.
Qed.


Lemma floor_ceiling_zero x : (x == 0)%Q -> Qfloor x = 0%Z /\ Qceiling x = 0%Z.
Proof.
  intros H.
  assert (A : (Qfloor x <= Qfloor 0)%Z) by (apply Qfloor_resp_le; rewrite H; apply Qle_refl).
  assert (B : (Qfloor 0 <= Qfloor x)%Z) by (apply Qfloor_resp_le; rewrite H; apply Qle_refl).
  assert (C : (Qceiling x <= Qceiling 0)%Z) by (apply Qceiling_resp_le; rewrite H; apply Qle_refl).
  assert (D : (Qceiling 0 <= Qceiling x)%Z) by (apply Qceiling_resp_le; rewrite H; apply Qle_refl).
  change (Qfloor 0) with 0%Z in *. change (Qceiling 0) with 0%Z in *. lia.
Qed.

(** X9: the edges of [calculatePercentile]: a one-element array yields its
    element for every percentile, and with two or more elements a
    percentile above 100 yields the last element (the [upper >= length]
    guard). *)
Theorem percentile_edge_cases :
  (forall (x p : Q), exists v, calculatePercentile [x] p = Some v /\ (v == x)%Q) /\
  (forall (l : list Q) (p : Q), 2 <= length l -> (100 < p)%Q ->
     calculatePercentile l p = Some (last l 0%Q)).
Proof.
  split.
  - intros x p. unfold calculatePercentile. cbv beta iota zeta.
    change (Z.of_nat (length [x]) - 1)%Z with 0%Z. change (Z.of_nat (length [x])) with 1%Z.
    destruct (floor_ceiling_zero (p / 100 * inject_Z 0)) as [-> ->].
    { rewrite Qmult_0_r. reflexivity. }
    eexists. split; [reflexivity|]. simpl. ring.
  - intros l p Hl Hp. destruct l as [|y l']; [simpl in Hl; lia|].
    set (m := (Z.of_nat (length (y :: l')) - 1)%Z).
    assert (Hm : (1 <= m)%Z) by (subst m; change (length (y :: l')) with (S (length l')) in *; lia).
    assert (Hmq : (1 <= inject_Z m)%Q) by (change 1%Q with (inject_Z 1); rewrite <- Zle_Qle; exact Hm).
    assert (Hd : (1 < p / 100)%Q) by (apply Qlt_shift_div_l; [reflexivity|]; rewrite Qmult_1_l; exact Hp).
    assert (Hi : (inject_Z m < p / 100 * inject_Z m)%Q) by nra.
    pose proof (Qle_ceiling (p / 100 * inject_Z m)) as Hc.
    assert (Hcz : (m < Qceiling (p / 100 * inject_Z m))%Z) by (apply Zlt_of_Q; lra).
    unfold calculatePercentile. cbv beta iota zeta. fold m.
    destruct (Z.geb_spec (Qceiling (p / 100 * inject_Z m)) (Z.of_nat (length (y :: l'))));
      [reflexivity|subst m; lia].
Qed.

(** Sorting the latencies. *)
Lemma insert_perm x l : Permutation (insert_z x l) (x :: l).
Proof.
  induction l as [|y l IH]; simpl; [reflexivity|].
  destruct (x <=? y)%Z; [reflexivity|].
  apply (Permutation_trans (l' := y :: x :: l)); [constructor; exact IH|constructor].
Qed.

Lemma sort_perm l : Permutation (sort_z l) l.
Proof.
  induction l as [|x l IH]; simpl; [reflexivity|].
  apply (Permutation_trans (insert_perm x (sort_z l))). constructor. exact IH.
Qed.

Lemma insert_sorted x l : Sorted Z.le l -> Sorted Z.le (insert_z x l).
Proof.
  induction l as [|y l IH]; simpl; intros H.
  - repeat constructor.
  - destruct (Z.leb_spec x y).
    + constructor; [exact H|constructor; exact H0].
    + inversion H as [|? ? Hl Hhd]; subst. constructor; [apply IH; exact Hl|].
      destruct l as [|z l']; simpl; [constructor; lia|].
      inversion Hhd; subst. destruct (x <=? z)%Z; constructor; lia.
Qed.

Lemma sort_sorted l : Sorted Z.le (sort_z l).
Proof. induction l; simpl; [constructor|apply insert_sorted; assumption]. Qed.

Lemma ss_nth (l : list Z) :
  StronglySorted Z.le l ->
  forall i j, i <= j < length l -> (nth i l 0 <= nth j l 0)%Z.
Proof.
  induction l as [|x l IH]; intros H i j Hij; simpl in Hij; [lia|].
  inversion H as [|? ? Hs Hall]; subst.
  destruct i as [|i], j as [|j]; simpl; try lia.
  - rewrite Forall_forall in Hall. apply Hall. apply nth_In. lia.
  - apply IH; [exact Hs|lia].
Qed.

Lemma sorted_latencies (l : list Z) : sorted_q (map inject_Z (sort_z l)).
Proof.
  intros i j Hij. rewrite length_map in Hij.
  change 0%Q with (inject_Z 0).
  rewrite !map_nth. rewrite <- Zle_Qle.
  apply ss_nth; [|exact Hij].
  apply Sorted_StronglySorted; [exact Z.le_trans|apply sort_sorted].
Qed.

Lemma sorted_member (l : list Z) i :
  i < length l -> exists z, In z l /\ nth i (map inject_Z (sort_z l)) 0%Q = inject_Z z.
Proof.
  intros Hi. exists (nth i (sort_z l) 0%Z). split.
  - apply (Permutation_in _ (sort_perm l)). apply nth_In.
    rewrite (Permutation_length (sort_perm l)). exact Hi.
  - change 0%Q with (inject_Z 0). apply map_nth.
Qed.

(** X11: [getMetrics] reports the median and the 95th percentile of the
    end-to-end latencies of the window: both are defined, the median does
    not exceed the 95th percentile, and both lie between the smallest and
    the largest latency of the window (0 and 0 on an empty window);
    [totalFrames] is [processedFrames] and [bandwidth] the stored figures. *)
Theorem getMetrics_latency_summary (now : Z) (c : MetricsCollector) :
  let m := getMetrics now c in
  totalFrames m = processedFrames c /\ bandwidth m = bandwidthStats c /\
  (frameMetrics c = [] -> median m = Some 0%Q /\ p95 m = Some 0%Q) /\
  (frameMetrics c <> [] ->
   exists md hi, median m = Some md /\ p95 m = Some hi /\ (md <= hi)%Q /\
     (exists f, In f (frameMetrics c) /\ (inject_Z (e2e_latency f) <= md)%Q) /\
     (exists f, In f (frameMetrics c) /\ (hi <= inject_Z (e2e_latency f))%Q)).
Proof.
  intros m. split; [reflexivity|]. split; [reflexivity|]. split.
  - intros H. subst m. unfold getMetrics. rewrite H. split; reflexivity.
  - intros Hne. subst m. unfold getMetrics. simpl.
    set (lat := map e2e_latency (frameMetrics c)).
    set (s := map inject_Z (sort_z lat)).
    assert (Hlen : length s = length (frameMetrics c)).
    { subst s lat. rewrite length_map, (Permutation_length (sort_perm _)), length_map. reflexivity. }
    assert (Hs0 : s <> []).
    { intros E. rewrite E in Hlen. destruct (frameMetrics c); [contradiction|discriminate]. }
    destruct (percentile_mono_core s 50 95 (sorted_latencies lat) Hs0)
      as [a [b [Ha [Hb [H0 [Hab H1]]]]]];
      try (apply Qle_bool_imp_le; reflexivity).
    exists a, b. split; [exact Ha|]. split; [exact Hb|]. split; [exact Hab|].
    assert (Hn : 0 < length lat) by (subst lat; rewrite length_map; destruct (frameMetrics c); [contradiction|simpl; lia]).
    split.
    + destruct (sorted_member lat 0 Hn) as [z [Hz Hnth]].
      subst lat. apply in_map_iff in Hz. destruct Hz as [f [Hf Hin]].
      exists f. split; [exact Hin|]. rewrite Hf, <- Hnth. exact H0.
    + assert (Hn1 : length s - 1 < length lat) by (subst s; rewrite length_map, (Permutation_length (sort_perm _)); lia).
      destruct (sorted_member lat (length s - 1) Hn1) as [z [Hz Hnth]].
      subst lat. apply in_map_iff in Hz. destruct Hz as [f [Hf Hin]].
      exists f. split; [exact Hin|]. rewrite Hf, <- Hnth. exact H1.
Qed.

(** X12: the [fps] of [getMetrics]: 0 while no frame has been processed (also
    when no time has elapsed, where [0 / 0] is [NaN] and [|| 0] applies),
    [processedFrames / elapsedSeconds] once the clock has moved, and
    [Infinity] for frames counted in the very millisecond the collector was
    created or reset. *)
Theorem fps_edge_cases (now : Z) (c : MetricsCollector) :
  let m := getMetrics now c in
  let elapsed := (inject_Z (now - startTime c) / 1000)%Q in
  elapsedTime m = elapsed /\
  (processedFrames c = 0 -> exists q, fps m = Fin q /\ (q == 0)%Q) /\
  (now <> startTime c ->
   fps m = Fin (inject_Z (Z.of_nat (processedFrames c)) / elapsed)%Q) /\
  (now = startTime c -> 0 < processedFrames c -> fps m = PosInfinity).
Proof.
  intros m elapsed. subst m. unfold getMetrics, fps_or_zero. simpl. fold elapsed.
  assert (Hz : Qeq_bool elapsed 0 = true <-> now = startTime c).
  { rewrite Qeq_bool_iff. subst elapsed. unfold Qeq. simpl. lia. }
  split; [reflexivity|]. split; [|split].
  - intros H0. rewrite H0. destruct (Qeq_bool elapsed 0).
    + exists 0%Q. split; reflexivity.
    + eexists. split; [reflexivity|]. simpl. unfold Qdiv. apply Qmult_0_l.
  - intros Hne. replace (Qeq_bool elapsed 0) with false; [reflexivity|].
    symmetry. apply not_true_is_false. intros E. apply Hz in E. contradiction.
  - intros Heq Hpos. rewrite (proj2 Hz Heq).
    destruct (processedFrames c); [lia|reflexivity].
Qed.

Lemma recordAll_fields samples c :
  startTime (recordAll samples c) = startTime c /\
  bandwidthStats (recordAll samples c) = bandwidthStats c.
Proof.
  revert c. induction samples as [|s rest IH]; intros c; [split; reflexivity|].
  unfold recordAll in *. simpl. apply (IH (recordFrame (fst s) (snd s) c)).
Qed.

(** X13: after [reset] at time [t] and [n] recorded frames, [exportMetrics]
    lists in [frame_details] exactly the [min n 10] most recent of those
    frames, in arrival order; [total_frames] reads [n], the bandwidth
    figures are back to 0 and the duration counts from [t]: nothing recorded
    before the reset shows. *)
Theorem export_after_reset (c : MetricsCollector) (t now : Z)
  (samples : list (Z * DetectionResult)) :
  let ex := exportMetrics now (recordAll samples (reset t c)) in
  let all := map (fun s => frameOf (fst s) (snd s)) samples in
  frame_details ex = skipn (length samples - 10) all /\
  length (frame_details ex) = Nat.min (length samples) 10 /\
  total_frames ex = length samples /\
  uplink_kbps ex = 0%Q /\ downlink_kbps ex = 0%Q /\
  duration_seconds ex = (inject_Z (now - t) / 1000)%Q.
Proof.
  intros ex all. change (reset t c) with (create t) in ex.
  destruct (MetricsFacts.recordAll_window samples (create t) ltac:(simpl; lia)) as [Hw Hp].
  destruct (recordAll_fields samples (create t)) as [Hst Hbw].
  simpl in Hw, Hp, Hst, Hbw. fold all in Hw.
  assert (Ha : length all = length samples) by (subst all; apply length_map).
  rewrite Ha in Hw.
  subst ex. unfold exportMetrics, getMetrics, slice_last. simpl.
  rewrite Hw, Hp, Hbw, Hst. simpl.
  rewrite !length_skipn, Ha, skipn_skipn.
  split; [f_equal; lia|]. split; [lia|repeat split; reflexivity].
Qed.

End PercentileFacts.

(* ================================================================== *)
(** * Properties of the mock detector *)

Module MockFacts.
Import Detection.

Definition unit_interval (r : Q) : Prop := (0 <= r < 1)%Q.

Lemma random_unit rs :
  Forall unit_interval rs ->
  unit_interval (fst (random rs)) /\ Forall unit_interval (snd (random rs)).
Proof.
  intros H. destruct rs as [|r rs]; simpl.
  - split; [split; [apply Qle_refl|reflexivity]|constructor].
  - inversion H; subst. split; assumption.
Qed.

(** The property every generated detection has. *)
Definition well_formed (d : Det) : Prop :=
  (0 <= xmin d /\ xmin d <= xmax d /\ xmax d <= 1 /\
   0 <= ymin d /\ ymin d <= ymax d /\ ymax d <= 1 /\
   65 # 100 <= score d /\ score d <= 1)%Q.

Lemma clamp_ok (c w : Q) :
  (0 <= w -> c - w / 2 <= 1 -> 0 <= c + w / 2 ->
   0 <= Qmax 0 (c - w / 2) /\ Qmax 0 (c - w / 2) <= Qmin 1 (c + w / 2) /\
   Qmin 1 (c + w / 2) <= 1)%Q.
Proof.
  intros Hw H1 H2. split; [apply Q.le_max_l|split; [|apply Q.le_min_l]].
  assert (H : (0 <= w / 2)%Q) by (apply Qle_shift_div_l; [reflexivity|lra]).
  apply Q.max_lub; apply Q.min_glb; try assumption; try lra.
Qed.

Lemma draw_value b s rs :
  fst (draw (b, s) rs) = (b + fst (random rs) * s)%Q /\ snd (draw (b, s) rs) = snd (random rs).
Proof. unfold draw. destruct (random rs). split; reflexivity. Qed.

(** The center and size ranges of every label keep the box inside the
    frame. *)
Lemma box_params_ok l r1 r2 r3 r4 :
  unit_interval r1 -> unit_interval r2 -> unit_interval r3 -> unit_interval r4 ->
  let ps := box_params l in
  let cx := (fst (nth 0 ps (0, 0)%Q) + r1 * snd (nth 0 ps (0, 0)%Q))%Q in
  let cy := (fst (nth 1 ps (0, 0)%Q) + r2 * snd (nth 1 ps (0, 0)%Q))%Q in
  let w := (fst (nth 2 ps (0, 0)%Q) + r3 * snd (nth 2 ps (0, 0)%Q))%Q in
  let h := (fst (nth 3 ps (0, 0)%Q) + r4 * snd (nth 3 ps (0, 0)%Q))%Q in
  (0 <= w /\ cx - w / 2 <= 1 /\ 0 <= cx + w / 2 /\
   0 <= h /\ cy - h / 2 <= 1 /\ 0 <= cy + h / 2)%Q.
Proof.
  intros H1 H2 H3 H4. unfold unit_interval in *. cbv zeta.
  unfold box_params.
  destruct (String.eqb l "person"); [|destruct (String.eqb l "phone")]; simpl;
    unfold Qdiv; change (Qinv 2) with (1 # 2)%Q; repeat split; lra.
Qed.

Lemma generate_well_formed objs rs :
  Forall unit_interval rs -> Forall well_formed (fst (generate objs rs)).
Proof.
  revert rs. induction objs as [|[l prob] objs IH]; intros rs Hrs; simpl; [constructor|].
  destruct (random_unit rs Hrs) as [U1 F1].
  destruct (random rs) as [r rs1]. simpl in U1, F1.
  destruct (negb (Qle_bool prob r)); [|apply IH; exact F1].
  set (ps := box_params l).
  destruct (nth 0 ps (0, 0)%Q) as [b0 s0] eqn:E0.
  destruct (nth 1 ps (0, 0)%Q) as [b1 s1] eqn:E1.
  destruct (nth 2 ps (0, 0)%Q) as [b2 s2] eqn:E2.
  destruct (nth 3 ps (0, 0)%Q) as [b3 s3] eqn:E3.
  destruct (draw_value b0 s0 rs1) as [D0 R0].
  destruct (draw (b0, s0) rs1) as [cx rs2]. simpl in D0, R0.
  destruct (random_unit rs1 F1) as [U2 F2]. rewrite <- R0 in F2.
  destruct (draw_value b1 s1 rs2) as [D1 R1].
  destruct (draw (b1, s1) rs2) as [cy rs3]. simpl in D1, R1.
  destruct (random_unit rs2 F2) as [U3 F3]. rewrite <- R1 in F3.
  destruct (draw_value b2 s2 rs3) as [D2 R2].
  destruct (draw (b2, s2) rs3) as [w rs4]. simpl in D2, R2.
  destruct (random_unit rs3 F3) as [U4 F4]. rewrite <- R2 in F4.
  destruct (draw_value b3 s3 rs4) as [D3 R3].
  destruct (draw (b3, s3) rs4) as [h rs5]. simpl in D3, R3.
  destruct (random_unit rs4 F4) as [U5 F5]. rewrite <- R3 in F5.
  destruct (random_unit rs5 F5) as [U6 F6].
  destruct (random rs5) as [sc rs6]. simpl in U6, F6.
  pose proof (box_params_ok l _ _ _ _ U2 U3 U4 U5) as B. simpl in B.
  fold ps in B. rewrite E0, E1, E2, E3 in B. simpl in B.
  rewrite <- D0, <- D1, <- D2, <- D3 in B.
  destruct B as [Bw [Bx1 [Bx2 [Bh [By1 By2]]]]].
  destruct (clamp_ok cx w Bw Bx1 Bx2) as [X1 [X2 X3]].
  destruct (clamp_ok cy h Bh By1 By2) as [Y1 [Y2 Y3]].
  destruct (generate objs rs6) as [rest rs7] eqn:G.
  constructor.
  - unfold well_formed; simpl. unfold unit_interval in U6.
    repeat split; try assumption; lra.
  - change rest with (fst (rest, rs7)). rewrite <- G. apply IH. exact F6.
Qed.

(** X14: every detection of the mock generator is a box inside the frame,
    [0 <= xmin <= xmax <= 1] and [0 <= ymin <= ymax <= 1], with a score in
    [[0.65, 1]], whenever [Math.random()] returns values in [[0, 1)]. *)
Theorem mock_detections_normalized (rs : list Q) (Hrs : Forall unit_interval rs) :
  Forall well_formed (generateEnhancedMockDetections rs).
Proof. apply generate_well_formed. exact Hrs. Qed.

Lemma mock_detections_normalized_witness :
  Forall unit_interval [0; 1 # 2; 99 # 100; 1 # 3; 1 # 10; 7 # 8]%Q /\
  Forall well_formed (generateEnhancedMockDetections [0; 1 # 2; 99 # 100; 1 # 3; 1 # 10; 7 # 8]%Q).
Proof.
  assert (H : Forall unit_interval [0; 1 # 2; 99 # 100; 1 # 3; 1 # 10; 7 # 8]%Q).
  { repeat constructor; unfold Qle, Qlt; simpl; lia. }
  split; [exact H|]. exact (mock_detections_normalized _ H).
Defined.

(** [l1] is [l2] with some elements left out. *)
Inductive subseq {A} : list A -> list A -> Prop :=
  | subseq_nil : subseq [] []
  | subseq_keep x l1 l2 : subseq l1 l2 -> subseq (x :: l1) (x :: l2)
  | subseq_skip x l1 l2 : subseq l1 l2 -> subseq l1 (x :: l2).

Lemma subseq_incl {A} (l1 l2 : list A) : subseq l1 l2 -> incl l1 l2.
Proof.
  induction 1; intros y Hy; simpl in *; [exact Hy|destruct Hy; auto|right; auto].
Qed.

Lemma subseq_nodup {A} (l1 l2 : list A) : subseq l1 l2 -> NoDup l2 -> NoDup l1.
Proof.
  induction 1; intros Hn; [constructor| |].
  - inversion Hn; subst. constructor; [|auto].
    intros Hin. apply (subseq_incl _ _ H) in Hin. contradiction.
  - inversion Hn; subst. auto.
Qed.

Lemma generate_labels objs rs :
  subseq (map label (fst (generate objs rs))) (map fst objs).
Proof.
  revert rs. induction objs as [|[l prob] objs IH]; intros rs; simpl; [constructor|].
  destruct (random rs) as [r rs1].
  destruct (negb (Qle_bool prob r)); [|apply subseq_skip, IH].
  repeat match goal with
         | |- context [let (_, _) := ?e in _] =>
             lazymatch e with generate _ _ => fail | _ => destruct e end
         end.
  destruct (generate objs _) as [rest rs7] eqn:G. simpl.
  apply subseq_keep. change rest with (fst (rest, rs7)). rewrite <- G. apply IH.
Qed.

(** X15: the mock generator reports each label of its list at most once, in
    the order of the list ([person], [phone], [cup], [book], [laptop],
    [bottle], [chair]), so never more than seven detections. *)
Theorem mock_labels_distinct (rs : list Q) :
  let ds := generateEnhancedMockDetections rs in
  subseq (map label ds) (map fst mockObjects) /\ NoDup (map label ds) /\ length ds <= 7.
Proof.
  intros ds. pose proof (generate_labels mockObjects rs) as H. split; [exact H|]. split.
  - apply (subseq_nodup _ _ H). simpl.
    repeat constructor; simpl; intuition discriminate.
  - rewrite <- (length_map label). clear - H.
    assert (Hl : forall A (l1 l2 : list A), subseq l1 l2 -> length l1 <= length l2)
      by (induction 1; simpl; lia).
    apply Hl in H. simpl in H. exact H.
Qed.

End MockFacts.

(* ================================================================== *)
(** * Properties of the [/api/detect] route *)

Module ApiFacts.
Import Detection Api.

(** X16: [/api/detect] answers 400 without running the detector when
    [image] is falsy ([undefined], [null], [false], [0] or [""]). Otherwise
    it first converts [capture_ts] for [parseInt]: when that conversion
    throws, as it does for an object with a [toString] field, it answers
    500; when it does not, it answers 200 with the detector's response,
    which echoes [frame_id], carries [parseInt(capture_ts)] and the arrival
    time as [recv_ts], and lists the mock detections. *)
Theorem api_detect_responses (nts : Q -> string) (pis : string -> JsNumber)
  (modelLoaded : bool) (sharp : string -> Exc (JsVal * JsVal)) (rs : list Q)
  (body : Body) (recv its : Z) :
  (falsy (image body) = true ->
   apiDetect nts pis modelLoaded sharp rs body recv its = Status400) /\
  (falsy (image body) = false -> toString nts (body_capture_ts body) = Throw ->
   apiDetect nts pis modelLoaded sharp rs body recv its = Status500) /\
  (forall s, falsy (image body) = false -> toString nts (body_capture_ts body) = Ok s ->
   apiDetect nts pis modelLoaded sharp rs body recv its =
   Status200 (mkResponse (body_frame_id body) (pis s) recv its
                         (generateEnhancedMockDetections rs))) /\
  (falsy JUndefined = true /\ falsy JNull = true /\ falsy (JBool false) = true /\
   falsy (JNum 0) = true /\ falsy (JStr "") = true) /\
  apiDetect nts pis modelLoaded sharp rs
    (mkBody (JStr "data:image/jpeg;base64,AAAA") (JObj [("toString", JNull)]) JUndefined)
    recv its = Status500.
Proof.
  unfold apiDetect. split; [|split; [|split; [|split]]].
  - intros H. rewrite H. reflexivity.
  - intros H Ht. rewrite H. unfold parseInt. rewrite Ht. reflexivity.
  - intros s H Hs. rewrite H. unfold parseInt. rewrite Hs. simpl.
    rewrite DetectionFacts.detectObjects_ok. reflexivity.
  - repeat split.
  - reflexivity.
Qed.

End ApiFacts.

(* ================================================================== *)
(** * Properties of [updateBandwidthStats] *)

Module BandwidthFacts.
Import Metrics MetricsOps Bandwidth.

Lemma mockStats_range rs c :
  Forall MockFacts.unit_interval rs ->
  let ud := bandwidthStats (mockStats rs c) in
  (800 <= fst ud <= 1200)%Q /\ (1200 <= snd ud <= 2000)%Q.
Proof.
  intros H. destruct (MockFacts.random_unit rs H) as [U1 F1].
  destruct (MockFacts.random_unit _ F1) as [U2 _].
  unfold mockStats. destruct (Detection.random rs) as [r1 rs1]. simpl in *.
  destruct (Detection.random rs1) as [r2 rs2]. simpl in *.
  unfold MockFacts.unit_interval in *. split; lra.
Qed.

(** X17: [updateBandwidthStats] does nothing without a peer connection; it
    stores the rates of the last outbound and inbound video reports when at
    least one of them is non-zero (a zero one is stored as 0), and it stores
    made-up figures in [[800, 1200]] and [[1200, 2000]] kbps when both are
    zero or [getStats()] fails; it never touches the frame records. *)
Theorem bandwidth_fallback (rs : list Q) (Hrs : Forall MockFacts.unit_interval rs)
  (c : MetricsCollector) :
  (forall st, updateBandwidthStats false st rs c = c) /\
  (forall reports, let ud := scanStats reports 0 0 in
     ~ (fst ud == 0 /\ snd ud == 0)%Q ->
     bandwidthStats (updateBandwidthStats true (Some reports) rs c) = ud) /\
  (forall st, (st = None \/ exists reports, st = Some reports /\
                 (fst (scanStats reports 0 0) == 0)%Q /\ (snd (scanStats reports 0 0) == 0)%Q) ->
     let ud := bandwidthStats (updateBandwidthStats true st rs c) in
     (800 <= fst ud <= 1200)%Q /\ (1200 <= snd ud <= 2000)%Q) /\
  (forall b st, frameMetrics (updateBandwidthStats b st rs c) = frameMetrics c /\
     processedFrames (updateBandwidthStats b st rs c) = processedFrames c).
Proof.
  split; [reflexivity|]. split; [|split].
  - intros reports ud Hnz. unfold updateBandwidthStats. simpl. subst ud.
    destruct (scanStats reports 0 0) as [u d]. simpl in Hnz.
    destruct (Qeq_bool u 0) eqn:Eu, (Qeq_bool d 0) eqn:Ed; try reflexivity.
    apply Qeq_bool_iff in Eu, Ed. tauto.
  - intros st [-> | [reports [-> [Hu Hd]]]]; unfold updateBandwidthStats; simpl.
    + apply mockStats_range. exact Hrs.
    + destruct (scanStats reports 0 0) as [u d]. simpl in Hu, Hd.
      apply Qeq_bool_iff in Hu, Hd. rewrite Hu, Hd. apply mockStats_range. exact Hrs.
  - intros b st. unfold updateBandwidthStats, mockStats.
    destruct b; [|split; reflexivity]. simpl.
    destruct st as [reports|]; [destruct (scanStats reports 0 0) as [u d];
      destruct (Qeq_bool u 0 && Qeq_bool d 0)|];
      repeat match goal with |- context [let (_, _) := ?e in _] => destruct e end;
      split; reflexivity.
Qed.

Lemma bandwidth_fallback_witness :
  Forall MockFacts.unit_interval [1 # 2; 1 # 4]%Q /\
  let ud := bandwidthStats (updateBandwidthStats true None [1 # 2; 1 # 4]%Q (create 0)) in
  (800 <= fst ud <= 1200)%Q /\ (1200 <= snd ud <= 2000)%Q.
Proof.
  assert (H : Forall MockFacts.unit_interval [1 # 2; 1 # 4]%Q).
  { repeat constructor; unfold Qle, Qlt; simpl; lia. }
  split; [exact H|].
  exact (proj1 (proj2 (proj2 (bandwidth_fallback _ H (create 0)))) None (or_introl eq_refl)).
Defined.

End BandwidthFacts.

(* ================================================================== *)
(** * Reconnection after a successful open *)

Module ReconnectFacts.
Import Browser.

(** X18: a successful open of the signaling socket restores the whole
    reconnect budget: whatever happened before, the next error schedules a
    reconnect after 1 s and its timer issues attempt 1 again. *)
Theorem open_renews_reconnect_budget (s : BState) :
  let s1 := step s WsOpen in
  let s3 := step (step s1 WsError) ReconnectTimer in
  reconnectAttempts s1 = 0 /\
  effects s3 = effects s ++ [SendJoin; ScheduleReconnect 1000; ReconnectAttempt 1;
                             StatusChange SConnecting] /\
  reconnectAttempts s3 = 1 /\ pendingTimers s3 = pendingTimers s.
Proof.
  simpl. split; [reflexivity|]. split; [rewrite <- !app_assoc; reflexivity|].
  split; reflexivity.
Qed.

End ReconnectFacts.
